(** * Hexalife: the wealth-driven hexagonal automaton of [src/gameLogic.ts]

    A shallow embedding of the pure core of the simulation (cell model,
    hexagonal topology, generation transition, grid editing) together with
    the properties its specification states about it.

    Modelling conventions.
    - A JavaScript [number] holding an age, a wealth, a rule, a row or a
      column is an integer of [Z]; additions are exact.
    - A [CellData[][]] is a list of rows, [list (list CellData)].  Reading
      [a[i]] outside [0 .. length-1] yields [undefined]; it is [idx a i =
      None] here.  Dereferencing [undefined] throws a [TypeError].
    - A width or a height is a natural number, the only lengths [Array(n)]
      accepts.
    - [density] and the values drawn from the random source are rationals;
      [<] on finite doubles is the order of the rationals they denote.
    - [toggleCell] and [setCell] are specified up to object identity of the
      grid they return, so these two run over a store of grids addressed by
      references. *)

From Stdlib Require Import ZArith QArith Lia.
From stdpp Require Import base option list gmap.

#[local] Set Warnings "-clear-no-such-hyp".

Close Scope Q_scope.
Open Scope Z_scope.

(** ** Outcomes of a JavaScript computation *)

Module Js.

(** What can go wrong in the fragment the program uses. *)
Inductive error : Set :=
| TypeError   (* a property of [undefined] is read or written *)
| NotDense.   (* execution goes on, but the array written to is no longer
                 a dense array of [{age, wealth}] records: an element is
                 stored past the end of a row or under a negative key, or
                 [{...undefined}] builds a record without fields *)

Inductive outcome (A : Type) : Type :=
| Ret (a : A)
| Err (e : error).
Arguments Ret {A} a.
Arguments Err {A} e.

#[global] Instance outcome_ret : MRet outcome := @Ret.
#[global] Instance outcome_bind : MBind outcome := λ A B f m,
  match m with
  | Ret a => f a
  | Err e => Err e
  end.

(** [a[i]] for a possibly negative integer [i]. *)
Definition idx {A} (a : list A) (i : Z) : option A :=
  if decide (0 ≤ i) then a !! Z.to_nat i else None.

(** [for (const x of xs) body], threading the variables the body assigns. *)
Fixpoint forOf {A St} (xs : list A) (body : A → St → outcome St) (st : St)
  : outcome St :=
  match xs with
  | [] => Ret st
  | x :: xs' => st' ← body x st; forOf xs' body st'
  end.

(** [for (let i = 0; i < n; i++) body]. *)
Definition forRange {St} (n : Z) (body : Z → St → outcome St) (st : St)
  : outcome St :=
  forOf (seqZ 0 n) body st.

(** [xs.map(f)] for a callback that reads and advances a state. *)
Fixpoint mapSt {A B S} (f : A → S → B * S) (xs : list A) (s : S)
  : list B * S :=
  match xs with
  | [] => ([], s)
  | x :: xs' =>
      let '(y, s1) := f x s in
      let '(ys, s2) := mapSt f xs' s1 in
      (y :: ys, s2)
  end.

End Js.
Import Js.

(** ** Cell model ([types.ts]) *)

Record CellData : Set := mkCell { age : Z; wealth : Z }.

Abbreviation Grid := (list (list CellData)).

Definition DEFAULT_STARTING_WEALTH : Z := 10.

(** ** The program ([gameLogic.ts]) *)

Definition defaultWealthRules : list Z := [-1; -3; -1; 1; -1; -2; -3].

Definition createEmptyCell : CellData := {| age := 0; wealth := 0 |}.

Definition createAliveCell (startingWealth : Z) : CellData :=
  {| age := 1; wealth := startingWealth |}.

Definition isAlive (cell : CellData) : bool := age cell >? 0.

(** [Array(n).fill(null)] *)
Definition nulls (n : nat) : list unit := replicate n ().

Definition createEmptyGrid (width height : nat) : Grid :=
  (λ _, (λ _, createEmptyCell) <$> nulls width) <$> nulls height.

Definition getHexNeighborOffsets (isOddRow : bool) : list (Z * Z) :=
  if isOddRow
  then [ (-1, 0); (-1, 1);
         (0, -1); (0, 1);
         (1, 0); (1, 1) ]
  else [ (-1, -1); (-1, 0);
         (0, -1); (0, 1);
         (1, -1); (1, 0) ].

(** [grid[row][col]] followed by a field read: either index out of range
    makes the read throw. *)
Definition cellAt (grid : Grid) (row col : Z) : outcome CellData :=
  match idx grid row with
  | None => Err TypeError
  | Some r =>
      match idx r col with
      | None => Err TypeError
      | Some cell => Ret cell
      end
  end.

(** [grid[row][col] = cell] on a grid whose rows are owned by the caller. *)
Definition setAt (grid : Grid) (row col : Z) (cell : CellData) : outcome Grid :=
  match idx grid row with
  | None => Err TypeError
  | Some r =>
      if decide (0 ≤ col < Z.of_nat (length r))
      then Ret (<[Z.to_nat row := <[Z.to_nat col := cell]> r]> grid)
      else Err NotDense
  end.

Definition getNeighborCount (grid : Grid) (row col : Z) : outcome Z :=
  match grid !! 0%nat with
  | None => Err TypeError
  | Some row0 =>
      let height := Z.of_nat (length grid) in
      let width := Z.of_nat (length row0) in
      let isOddRow := Z.rem row 2 =? 1 in
      let neighbors := getHexNeighborOffsets isOddRow in
      forOf neighbors (λ '(dr, dc) count,
        let newRow := row + dr in
        let newCol := col + dc in
        if (0 <=? newRow) && (newRow <? height)
           && (0 <=? newCol) && (newCol <? width)
        then
          cell ← cellAt grid newRow newCol;
          if age cell >? 0 then Ret (count + 1) else Ret count
        else Ret count) 0
  end.

Definition computeNextGeneration
    (grid : Grid) (wealthRules : list Z) (startingWealth : Z) : outcome Grid :=
  match grid !! 0%nat with
  | None => Err TypeError
  | Some row0 =>
      let height := length grid in
      let width := length row0 in
      let newGrid := createEmptyGrid width height in
      forRange (Z.of_nat height) (λ row newGrid,
        forRange (Z.of_nat width) (λ col newGrid,
          neighborCount ← getNeighborCount grid row col;
          currentCell ← cellAt grid row col;
          let isCurrentlyAlive := age currentCell >? 0 in
          let wealthChange := default 0 (idx wealthRules neighborCount) in
          if isCurrentlyAlive then
            let newWealth := wealth currentCell + wealthChange in
            if newWealth >? 0 then
              setAt newGrid row col
                {| age := age currentCell + 1; wealth := newWealth |}
            else
              setAt newGrid row col createEmptyCell
          else
            if wealthChange >? 0 then
              setAt newGrid row col {| age := 1; wealth := startingWealth |}
            else
              setAt newGrid row col createEmptyCell)
          newGrid)
        newGrid
  end.

(** [{ ...c }] *)
Definition spread (c : CellData) : CellData :=
  {| age := age c; wealth := wealth c |}.

Definition resizeGrid (grid : Grid) (newWidth newHeight : nat) : outcome Grid :=
  let newGrid := createEmptyGrid newWidth newHeight in
  let oldHeight := length grid in
  let oldWidth := match grid !! 0%nat with Some r => length r | None => 0%nat end in
  forRange (Z.of_nat oldHeight `min` Z.of_nat newHeight) (λ row newGrid,
    forRange (Z.of_nat oldWidth `min` Z.of_nat newWidth) (λ col newGrid,
      match idx grid row with
      | None => Err TypeError
      | Some r =>
          match idx r col with
          | None => Err NotDense
          | Some cell => setAt newGrid row col (spread cell)
          end
      end)
      newGrid)
    newGrid.

(** *** Editing through references

    A store maps the reference of every live grid object to its contents;
    a new array gets a reference that the store does not hold yet.  A
    reference always denotes an object, so the lookup of the argument cannot
    fail in a run of the program; its [None] branch only makes the
    functions total. *)

Abbreviation ref := positive.
Abbreviation Store := (gmap positive Grid).

Definition alloc (σ : Store) (grid : Grid) : ref * Store :=
  let l := fresh (dom σ) in (l, <[l := grid]> σ).

(** [grid.map(r => r.map(c => ({ ...c })))] *)
Definition deepCopy (grid : Grid) : Grid :=
  (λ r : list CellData, spread <$> r) <$> grid.

Definition toggleCell (σ : Store) (grid : ref) (row col : Z) (startingWealth : Z)
  : outcome (ref * Store) :=
  match σ !! grid with
  | None => Err TypeError
  | Some cells =>
      let newGrid := deepCopy cells in
      currentCell ← cellAt newGrid row col;
      newGrid' ←
        (if age currentCell >? 0
         then setAt newGrid row col createEmptyCell
         else setAt newGrid row col (createAliveCell startingWealth));
      Ret (alloc σ newGrid')
  end.

Definition setCell (σ : Store) (grid : ref) (row col : Z) (value : bool)
    (startingWealth : Z) : outcome (ref * Store) :=
  match σ !! grid with
  | None => Err TypeError
  | Some cells =>
      let currentAlive :=
        match idx cells row with
        | None => false
        | Some r =>
            match idx r col with
            | None => false
            | Some cell => age cell >? 0
            end
        end in
      if decide (currentAlive = value) then Ret (grid, σ)
      else
        let newGrid := deepCopy cells in
        newGrid' ←
          setAt newGrid row col
            (if value then createAliveCell startingWealth else createEmptyCell);
        Ret (alloc σ newGrid')
  end.

(** *** Randomisation

    The random source is a function on its own state: a call returns the
    value drawn and the state the next call starts from. *)

Section Randomize.
Context {S : Type} (randomFn : S → Q * S).

Definition randomizeGrid (width height : nat) (density : Q)
    (startingWealth : Z) (s : S) : Grid * S :=
  mapSt (λ _ s,
    mapSt (λ _ s,
      let '(x, s') := randomFn s in
      (if Qlt_le_dec x density
       then createAliveCell startingWealth
       else createEmptyCell, s'))
      (nulls width) s)
    (nulls height) s.

(** The state after one call, and the value the [k]-th call returns
    (counting from 0) when the source starts in state [s]. *)
Definition advance (s : S) : S := (randomFn s).2.

Definition drawAt (k : nat) (s : S) : Q :=
  (randomFn (Nat.iter k advance s)).1.

End Randomize.

(** ** Vocabulary of the specification *)

(** The cell at a position, [None] outside the grid. *)
Definition at_pos (grid : Grid) (row col : Z) : option CellData :=
  r ← idx grid row; idx r col.

Definition gridWidth (grid : Grid) : nat :=
  match grid !! 0%nat with
  | Some r => length r
  | None => 0%nat
  end.

(** A grid of [h] rows, each of [w] cells. *)
Definition dims (grid : Grid) (h w : nat) : Prop :=
  length grid = h ∧ Forall (λ r, length r = w) grid.

(** Grids are rectangular: every row is as long as the first. *)
Definition rectangular (grid : Grid) : Prop :=
  dims grid (length grid) (gridWidth grid).

Definition inBounds (grid : Grid) (row col : Z) : Prop :=
  0 ≤ row < Z.of_nat (length grid) ∧ 0 ≤ col < Z.of_nat (gridWidth grid).

#[global] Instance inBounds_dec grid row col : Decision (inBounds grid row col).
Proof. unfold inBounds. apply _. Defined.
Arguments inBounds_dec : simpl never.

(** A neighbour offset [d] of [(row, col)] counts when its target lies in
    the grid and the cell there is alive. *)
Definition liveTarget (grid : Grid) (row col : Z) (d : Z * Z) : bool :=
  bool_decide (inBounds grid (row + d.1) (col + d.2))
  && match at_pos grid (row + d.1) (col + d.2) with
     | Some cell => bool_decide (age cell > 0)
     | None => false
     end.

(** The number of live neighbours, over the offsets of the row's parity. *)
Definition liveNeighbors (grid : Grid) (row col : Z) : Z :=
  Z.of_nat (length (filter (λ d, liveTarget grid row col d)
                           (getHexNeighborOffsets (Z.odd row)))).

(** The wealth delta of a neighbour count, 0 where the table has no entry. *)
Definition wealthChangeOf (wealthRules : list Z) (n : Z) : Z :=
  default 0 (idx wealthRules n).

(** The fate of one cell under a wealth delta. *)
Definition stepCell (startingWealth delta : Z) (cell : CellData) : CellData :=
  if bool_decide (age cell > 0) then
    if bool_decide (wealth cell + delta > 0)
    then {| age := age cell + 1; wealth := wealth cell + delta |}
    else {| age := 0; wealth := 0 |}
  else
    if bool_decide (delta > 0)
    then {| age := 1; wealth := startingWealth |}
    else {| age := 0; wealth := 0 |}.

(** The cell [randomizeGrid] makes of one drawn value. *)
Definition cellOfDraw (density : Q) (startingWealth : Z) (x : Q) : CellData :=
  if Qlt_le_dec x density
  then createAliveCell startingWealth
  else createEmptyCell.

(** *** Sample inputs *)

(** A 3 by 3 grid with two live cells next to its centre. *)
Definition sampleGrid : Grid :=
  [ [createEmptyCell; createAliveCell 10; createEmptyCell];
    [{| age := 5; wealth := 3 |}; createEmptyCell; createEmptyCell];
    [createEmptyCell; createEmptyCell; createEmptyCell] ].

Definition sampleRules : list Z := [-5; -3; 5; 3; -1; -2; -3].

(** A store holding [sampleGrid] under reference 1. *)
Definition sampleStore : Store := <[1%positive := sampleGrid]> ∅.

(** The random source of the test suite: 0.8, 0.2, 0.8, 0.2, ...; its state
    is the number of calls made so far. *)
Definition mockRandom (callCount : nat) : Q * nat :=
  let callCount := S callCount in
  (if (callCount mod 2 =? 0)%nat then 2 # 10 else 8 # 10, callCount)%Q.

(** Repeated stepping, as the driver does on every tick. *)
Fixpoint generations (n : nat) (grid : Grid) (wealthRules : list Z)
    (startingWealth : Z) : outcome Grid :=
  match n with
  | O => Ret grid
  | S n' =>
      grid' ← computeNextGeneration grid wealthRules startingWealth;
      generations n' grid' wealthRules startingWealth
  end.

(** [cell] sits at (row, col) and no other cell of the grid is alive. *)
Definition onlyAlive (grid : Grid) (row col : Z) (cell : CellData) : Prop :=
  rectangular grid
  ∧ at_pos grid row col = Some cell
  ∧ ∀ r c x, at_pos grid r c = Some x → (r, c) ≠ (row, col) → ¬ age x > 0.

(** The invariant of the cell model. *)
Definition cell_ok (cell : CellData) : Prop :=
  0 ≤ age cell ∧ (age cell = 0 → wealth cell = 0).

Definition grid_ok (grid : Grid) : Prop := Forall (Forall cell_ok) grid.

(** A 3 by 3 grid whose only live cell is a newborn at the centre. *)
Definition isolatedGrid : Grid :=
  [ [createEmptyCell; createEmptyCell; createEmptyCell];
    [createEmptyCell; createAliveCell 10; createEmptyCell];
    [createEmptyCell; createEmptyCell; createEmptyCell] ].

(** ** The rest of [gameLogic.ts] *)

(** A [{ row, col }] object. *)
Module Pos.
Record t : Set := mk { row : Z; col : Z }.
End Pos.

#[global] Instance Pos_eq_dec : EqDecision Pos.t.
Proof. solve_decision. Defined.

Definition getNeighborPositions (row col height width : Z) : list Pos.t :=
  let isOddRow := Z.rem row 2 =? 1 in
  let offsets := getHexNeighborOffsets isOddRow in
  fold_left (λ positions '(dr, dc),
    let newRow := row + dr in
    let newCol := col + dc in
    if (0 <=? newRow) && (newRow <? height)
       && (0 <=? newCol) && (newCol <? width)
    then positions ++ [Pos.mk newRow newCol]
    else positions) offsets [].

Definition getCellAge (cell : CellData) : Z := age cell.

Definition getCellWealth (cell : CellData) : Z := wealth cell.

(** ** The state holder ([hooks/useGameOfLife.ts])

    The hook keeps five pieces of state; each callback it hands out is a
    transition on them.  The callbacks for toggling and setting a cell, the
    timer and the local storage are not part of this model. *)

Module Hook.

Inductive SimulationState : Set := stopped | paused | playing.

Record GridState : Type :=
  mkGridState { cells : Grid; width : nat; height : nat }.

Record State : Type := mkState {
  gridState : GridState;
  wealthRules : list Z;
  simulationState : SimulationState;
  speed : Z;
  generation : Z
}.

(** [newCells.some(row => row.some(cell => cell.age > 0))] *)
Definition hasAliveCells (newCells : Grid) : bool :=
  existsb (λ row, existsb (λ cell, age cell >? 0) row) newCells.

Definition step (st : State) : outcome State :=
  let prev := gridState st in
  newCells ←
    computeNextGeneration (cells prev) (wealthRules st) DEFAULT_STARTING_WEALTH;
  let hasAlive := hasAliveCells newCells in
  Ret {| gridState :=
           {| cells := newCells; width := width prev; height := height prev |};
         wealthRules := wealthRules st;
         simulationState :=
           if negb hasAlive then stopped else simulationState st;
         speed := speed st;
         generation := generation st + 1 |}.



Definition clear (st : State) : State :=
  let prev := gridState st in
  {| gridState :=
       {| cells := createEmptyGrid (width prev) (height prev);
          width := width prev; height := height prev |};
     wealthRules := wealthRules st;
     simulationState := stopped;
     speed := speed st;
     generation := 0 |}.



Definition resetWealth (st : State) : State :=
  let prev := gridState st in
  {| gridState :=
       {| cells :=
            (λ row : list CellData,
               (λ cell, if age cell >? 0
                        then {| age := age cell; wealth := 1 |}
                        else cell) <$> row) <$> cells prev;
          width := width prev; height := height prev |};
     wealthRules := wealthRules st;
     simulationState := simulationState st;
     speed := speed st; generation := generation st |}.

(** [n] calls of [step] in a row. *)
Fixpoint steps (n : nat) (st : State) : outcome State :=
  match n with
  | O => Ret st
  | S n' => st' ← step st; steps n' st'
  end.

End Hook.

(** ** The figures shown under the grid ([components/Metrics.tsx]) *)

Module Metrics.

Definition aliveCells (cells : Grid) : list CellData :=
  List.filter (λ c, age c >? 0) (concat cells).

Definition totalCells (cells : Grid) : Z :=
  Z.of_nat (length (aliveCells cells)).

Definition totalWealth (cells : Grid) : Z :=
  fold_left (λ sum c, sum + wealth c) (aliveCells cells) 0.

Definition avgWealth (cells : Grid) : Q :=
  if totalCells cells >? 0
  then (inject_Z (totalWealth cells) / inject_Z (totalCells cells))%Q
  else 0%Q.

End Metrics.

(** *** Vocabulary for these *)

(** The position holds a live cell. *)
Definition aliveAt (grid : Grid) (p : Pos.t) : bool :=
  match at_pos grid (Pos.row p) (Pos.col p) with
  | Some cell => bool_decide (age cell > 0)
  | None => false
  end.


(** Every live cell holds positive wealth. *)
Definition solvent (grid : Grid) : Prop :=
  ∀ row col cell, at_pos grid row col = Some cell →
    age cell > 0 → wealth cell > 0.

(** No cell is alive. *)
Definition extinct (grid : Grid) : Prop :=
  ∀ row col cell, at_pos grid row col = Some cell → ¬ age cell > 0.

(** A paused state of the hook holding [sampleGrid]. *)
Definition sampleState : Hook.State :=
  {| Hook.gridState :=
       {| Hook.cells := sampleGrid; Hook.width := 3; Hook.height := 3 |};
     Hook.wealthRules := sampleRules;
     Hook.simulationState := Hook.paused;
     Hook.speed := 200;
     Hook.generation := 4 |}.

(** ** Loops *)

Section Loops.
Context {St : Type}.

Lemma forOf_inv {A} (P : nat → St → Prop) (xs : list A) body st :
  P 0%nat st →
  (∀ i x st, xs !! i = Some x → P i st →
     ∃ st', body x st = Ret st' ∧ P (S i) st') →
  ∃ st', forOf xs body st = Ret st' ∧ P (length xs) st'.
Proof.
  revert P st. induction xs as [|x xs IH]; intros P st H0 Hstep; simpl.
  - eauto.
  - destruct (Hstep 0%nat x st eq_refl H0) as (st1 & -> & H1). simpl.
    apply (IH (λ i, P (S i))); [done|].
    intros i y st2 Hy. apply (Hstep (S i)). done.
Qed.

Lemma forRange_inv (P : Z → St → Prop) n body st :
  0 ≤ n →
  P 0 st →
  (∀ i st, 0 ≤ i < n → P i st → ∃ st', body i st = Ret st' ∧ P (i + 1) st') →
  ∃ st', forRange n body st = Ret st' ∧ P n st'.
Proof.
  intros Hn H0 Hstep. unfold forRange.
  destruct (forOf_inv (λ i, P (Z.of_nat i)) (seqZ 0 n) body st) as (st' & Hr & HP).
  - done.
  - intros i x st1 [-> Hi]%lookup_seqZ HPi.
    destruct (Hstep (Z.of_nat i) st1) as (st2 & ? & ?); [lia|done|].
    exists st2. split; [by rewrite Z.add_0_l|].
    by replace (Z.of_nat (S i)) with (Z.of_nat i + 1) by lia.
  - exists st'. split; [done|].
    rewrite length_seqZ, Z2Nat.id in HP; done.
Qed.

Lemma forOf_preserve {A} (P : St → Prop) (xs : list A) body st st' :
  P st →
  (∀ x st st', P st → body x st = Ret st' → P st') →
  forOf xs body st = Ret st' → P st'.
Proof.
  intros H0 Hstep. revert st H0.
  induction xs as [|x xs IH]; intros st H0; simpl.
  - by intros [= <-].
  - destruct (body x st) as [st1|e] eqn:E; simpl; [|done].
    apply IH. by eapply Hstep.
Qed.

End Loops.

(** ** Reading and writing positions *)

Lemma idx_Some {A} (a : list A) i x :
  idx a i = Some x ↔ 0 ≤ i ∧ a !! Z.to_nat i = Some x.
Proof. unfold idx. case_decide; naive_solver. Qed.

Lemma idx_of_nat {A} (a : list A) (i : nat) : idx a (Z.of_nat i) = a !! i.
Proof. unfold idx. rewrite decide_True by lia. by rewrite Nat2Z.id. Qed.

Lemma idx_is_Some {A} (a : list A) i :
  is_Some (idx a i) ↔ 0 ≤ i < Z.of_nat (length a).
Proof.
  unfold idx. case_decide.
  - rewrite lookup_lt_is_Some. lia.
  - split; [by intros [? ?]|lia].
Qed.

Lemma idx_insert {A} (a : list A) i j x :
  0 ≤ i < Z.of_nat (length a) →
  idx (<[Z.to_nat i := x]> a) j = if decide (j = i) then Some x else idx a j.
Proof.
  intros Hi. unfold idx. case_decide as Hj; case_decide as Hji; subst; try done.
  - rewrite list_lookup_insert_eq; [done|lia].
  - rewrite list_lookup_insert_ne; [done|lia].
  - lia.
Qed.

Lemma at_pos_dims grid h w row col :
  dims grid h w →
  is_Some (at_pos grid row col) ↔ 0 ≤ row < Z.of_nat h ∧ 0 ≤ col < Z.of_nat w.
Proof.
  intros [<- Hw]. unfold at_pos. split.
  - intros [cell Hc]. destruct (idx grid row) as [r|] eqn:Hr; [|done].
    simpl in Hc. assert (length r = w) as <-.
    { apply idx_Some in Hr as [_ Hr]. by eapply (Forall_lookup_1 _ _ _ _ Hw). }
    split; apply idx_is_Some; eauto.
  - intros [Hrow Hcol]. apply idx_is_Some in Hrow as [r Hr]. rewrite Hr. simpl.
    apply idx_is_Some. apply idx_Some in Hr as [_ Hr].
    by rewrite (Forall_lookup_1 _ _ _ _ Hw Hr).
Qed.

Lemma at_pos_cellAt grid row col cell :
  at_pos grid row col = Some cell → cellAt grid row col = Ret cell.
Proof.
  unfold at_pos, cellAt. destruct (idx grid row) as [r|]; [|done]. simpl.
  by intros ->.
Qed.

Lemma setAt_ok grid h w row col v :
  dims grid h w →
  0 ≤ row < Z.of_nat h → 0 ≤ col < Z.of_nat w →
  ∃ grid', setAt grid row col v = Ret grid' ∧ dims grid' h w ∧
    ∀ r c, at_pos grid' r c =
           if decide (r = row ∧ c = col) then Some v else at_pos grid r c.
Proof.
  intros [Hh Hw] Hrow Hcol. unfold setAt.
  destruct (idx grid row) as [rw|] eqn:Hrw; cycle 1.
  { assert (is_Some (idx grid row)) as [? ?] by (apply idx_is_Some; lia). congruence. }
  assert (length rw = w) as Hlen.
  { apply idx_Some in Hrw as [_ Hrw]. by eapply (Forall_lookup_1 _ _ _ _ Hw). }
  rewrite decide_True by lia. eexists. split; [done|]. split.
  - split; [by rewrite length_insert|].
    apply Forall_insert; [done|]. by rewrite length_insert.
  - intros r c. unfold at_pos. rewrite idx_insert by lia.
    destruct (decide (r = row)) as [->|Hne]; simpl.
    + rewrite idx_insert by lia. rewrite Hrw. simpl.
      repeat case_decide; naive_solver.
    + rewrite decide_False; [done|naive_solver].
Qed.

(** Two nested counting loops that store [F row col] at every position of
    [0..H-1] by [0..W-1] leave exactly these values there and nothing else
    changed. *)
Lemma fill_loops (F : Z → Z → CellData) (body : Z → Z → Grid → outcome Grid)
    (H W : Z) (h w : nat) (g0 : Grid) :
  0 ≤ H ≤ Z.of_nat h → 0 ≤ W ≤ Z.of_nat w → dims g0 h w →
  (∀ r c g, 0 ≤ r < H → 0 ≤ c < W → body r c g = setAt g r c (F r c)) →
  ∃ g', forRange H (λ row g, forRange W (λ col g, body row col g) g) g0 = Ret g'
        ∧ dims g' h w
        ∧ ∀ r c, at_pos g' r c =
                 if decide (0 ≤ r < H ∧ 0 ≤ c < W) then Some (F r c)
                 else at_pos g0 r c.
Proof.
  intros HH HW Hd Hbody.
  pose (P := λ (i : Z) (g : Grid), dims g h w ∧ ∀ r c, at_pos g r c =
           if decide (0 ≤ r < i ∧ 0 ≤ c < W) then Some (F r c) else at_pos g0 r c).
  apply (forRange_inv P); unfold P; [lia| |].
  { split; [done|]. intros r c. rewrite decide_False; [done|lia]. }
  intros i g Hi [Hdg Hg].
  destruct (forRange_inv (λ (j : Z) (g' : Grid), dims g' h w ∧ ∀ r c, at_pos g' r c =
              if decide ((0 ≤ r < i ∧ 0 ≤ c < W) ∨ (r = i ∧ 0 ≤ c < j))
              then Some (F r c) else at_pos g0 r c)
            W (λ col g, body i col g) g) as (g' & Hr & Hdg' & Hg').
  - lia.
  - split; [done|]. intros r c. rewrite Hg. repeat case_decide; try done; lia.
  - intros j g1 Hj [Hd1 Hg1]. rewrite Hbody by lia.
    destruct (setAt_ok g1 h w i j (F i j) Hd1) as (g2 & -> & Hd2 & Hg2); [lia..|].
    exists g2. split; [done|]. split; [done|]. intros r c.
    rewrite Hg2, Hg1. repeat case_decide; try done; try lia.
    destruct_and!; by subst.
  - exists g'. split; [done|]. split; [done|]. intros r c. rewrite Hg'.
    repeat case_decide; try done; lia.
Qed.

(** ** Constructors *)

Lemma createEmptyGrid_replicate width height :
  createEmptyGrid width height = replicate height (replicate width createEmptyCell).
Proof.
  unfold createEmptyGrid, nulls. rewrite fmap_replicate. f_equal.
  apply fmap_replicate.
Qed.

Lemma createEmptyGrid_dims width height :
  dims (createEmptyGrid width height) height width.
Proof.
  rewrite createEmptyGrid_replicate. split; [apply length_replicate|].
  apply Forall_replicate, length_replicate.
Qed.

Lemma createEmptyGrid_at_pos width height row col cell :
  at_pos (createEmptyGrid width height) row col = Some cell →
  cell = createEmptyCell.
Proof.
  rewrite createEmptyGrid_replicate. unfold at_pos.
  destruct (idx _ row) as [r|] eqn:Hr; [|done]. simpl.
  apply idx_Some in Hr as [_ [-> _]%lookup_replicate].
  by intros [_ [-> _]%lookup_replicate]%idx_Some.
Qed.

Lemma gridWidth_first (grid : Grid) row0 :
  grid !! 0%nat = Some row0 → gridWidth grid = length row0.
Proof. unfold gridWidth. by intros ->. Qed.

Lemma rectangular_at_pos grid row col :
  rectangular grid → is_Some (at_pos grid row col) ↔ inBounds grid row col.
Proof. apply at_pos_dims. Qed.

(** ** Hex topology *)

(** C3: for each row parity the offset table has exactly six entries, and
    as a set it is the one the specification lists:
    (-1,-1) (-1,0) (0,-1) (0,1) (1,-1) (1,0) on even rows and
    (-1,0) (-1,1) (0,-1) (0,1) (1,0) (1,1) on odd rows. *)
Theorem getHexNeighborOffsets_sets :
  length (getHexNeighborOffsets false) = 6%nat
  ∧ length (getHexNeighborOffsets true) = 6%nat
  ∧ list_to_set (getHexNeighborOffsets false)
    = ({[ (-1, -1); (-1, 0); (0, -1); (0, 1); (1, -1); (1, 0) ]} : gset (Z * Z))
  ∧ list_to_set (getHexNeighborOffsets true)
    = ({[ (-1, 0); (-1, 1); (0, -1); (0, 1); (1, 0); (1, 1) ]} : gset (Z * Z)).
Proof.
  split; [reflexivity|]. split; [reflexivity|].
  split; apply set_eq; intros p; rewrite elem_of_list_to_set; simpl;
    rewrite !elem_of_cons, elem_of_nil, !elem_of_union, !elem_of_singleton;
    tauto.
Qed.

(** ** Counting neighbours *)

Lemma rem2_odd row : 0 ≤ row → (Z.rem row 2 =? 1) = Z.odd row.
Proof.
  intros Hrow. rewrite Z.rem_mod_nonneg by lia.
  rewrite (Zmod_odd row). destruct (Z.odd row); done.
Qed.

Lemma getNeighborCount_spec grid row col :
  rectangular grid → grid ≠ [] → 0 ≤ row →
  getNeighborCount grid row col = Ret (liveNeighbors grid row col).
Proof.
  intros Hrect Hne Hrow. unfold getNeighborCount, liveNeighbors.
  destruct grid as [|row0 rest] eqn:Hg; [done|]. rewrite <- Hg in *.
  assert (grid !! 0%nat = Some row0) as H0 by (by subst).
  rewrite H0. clear Hg Hne. rewrite rem2_odd by done.
  match goal with |- forOf _ ?b 0 = _ => set (body := b) end.
  cut (∀ offs k, forOf offs body k =
         Ret (k + Z.of_nat (length (filter (λ d, liveTarget grid row col d) offs)))).
  { intros Hloop. by rewrite Hloop. }
  induction offs as [|[dr dc] offs IH]; intros k; simpl.
  { f_equal. lia. }
  rewrite filter_cons. rewrite <- (gridWidth_first grid row0 H0).
  assert ((0 <=? row + dr) && (row + dr <? Z.of_nat (length grid))
          && (0 <=? col + dc) && (col + dc <? Z.of_nat (gridWidth grid))
          = bool_decide (inBounds grid (row + dr) (col + dc))) as ->.
  { unfold inBounds. case_bool_decide as Hin.
    - destruct Hin. repeat (apply andb_true_intro; split); lia.
    - apply not_true_is_false. intros Ht. apply Hin.
      repeat (apply andb_prop in Ht as [Ht ?]). split; lia. }
  destruct (liveTarget grid row col (dr, dc)) eqn:Hlive; simpl;
    unfold liveTarget in Hlive; simpl in Hlive.
  - apply andb_prop in Hlive as [Hin Hcell]. rewrite Hin.
    destruct (at_pos grid (row + dr) (col + dc)) as [cell|] eqn:Hat; [|done].
    apply bool_decide_eq_true_1 in Hcell.
    rewrite (at_pos_cellAt _ _ _ _ Hat). simpl.
    destruct (Z.gtb_spec (age cell) 0); [|lia]. simpl.
    rewrite IH. f_equal. lia.
  - case_bool_decide as Hin; simpl; [|apply IH].
    destruct (proj2 (rectangular_at_pos grid _ _ Hrect) Hin) as [cell Hat].
    rewrite Hat in Hlive. apply bool_decide_eq_false_1 in Hlive.
    rewrite (at_pos_cellAt _ _ _ _ Hat). simpl.
    destruct (Z.gtb_spec (age cell) 0); [lia|]. simpl. apply IH.
Qed.

Lemma liveNeighbors_range grid row col : 0 ≤ liveNeighbors grid row col ≤ 6.
Proof.
  unfold liveNeighbors. split; [lia|].
  pose proof (length_filter (λ d, liveTarget grid row col d)
                (getHexNeighborOffsets (Z.odd row))) as Hle.
  assert (length (getHexNeighborOffsets (Z.odd row)) = 6%nat)
    by (by destruct (Z.odd row)).
  lia.
Qed.

(** ** One generation *)

Lemma at_pos_None_dims grid h w row col :
  dims grid h w →
  ¬ (0 ≤ row < Z.of_nat h ∧ 0 ≤ col < Z.of_nat w) →
  at_pos grid row col = None.
Proof.
  intros Hd Hout. apply eq_None_not_Some.
  by rewrite (at_pos_dims grid h w row col Hd).
Qed.

Lemma computeNextGeneration_pointwise grid wealthRules startingWealth :
  rectangular grid → grid ≠ [] →
  ∃ grid', computeNextGeneration grid wealthRules startingWealth = Ret grid'
    ∧ dims grid' (length grid) (gridWidth grid)
    ∧ ∀ r c, at_pos grid' r c =
        stepCell startingWealth
          (wealthChangeOf wealthRules (liveNeighbors grid r c))
        <$> at_pos grid r c.
Proof.
  intros Hrect Hne. unfold computeNextGeneration.
  destruct (grid !! 0%nat) as [row0|] eqn:H0; [|by destruct grid].
  rewrite <- (gridWidth_first grid row0 H0). cbv zeta.
  pose (F := λ r c, stepCell startingWealth
                (wealthChangeOf wealthRules (liveNeighbors grid r c))
                (default createEmptyCell (at_pos grid r c))).
  match goal with
  | |- ∃ x, forRange ?H (λ row g, forRange ?W (@?b row) g) ?g0 = _ ∧ _ =>
      destruct (fill_loops F (λ r c g, b r c g) H W
                  (length grid) (gridWidth grid) g0) as (g' & Hr & Hd & Hpos)
  end; [lia|lia|apply createEmptyGrid_dims| |].
  - intros r c g Hr Hc. cbv beta.
    rewrite getNeighborCount_spec by (done || lia). simpl.
    destruct (proj2 (rectangular_at_pos grid r c Hrect)) as [cell Hcell];
      [by split|].
    rewrite (at_pos_cellAt _ _ _ _ Hcell). simpl.
    unfold F, stepCell, wealthChangeOf. rewrite Hcell. simpl.
    destruct (Z.gtb_spec (age cell) 0); case_bool_decide; try lia;
      match goal with |- context [?a >? 0] => destruct (Z.gtb_spec a 0) end;
      case_bool_decide; try lia; done.
  - exists g'. split; [exact Hr|]. split; [done|]. intros r c. rewrite Hpos.
    case_decide as Hin.
    + destruct (proj2 (rectangular_at_pos grid r c Hrect)) as [cell Hcell];
        [done|].
      unfold F. by rewrite Hcell.
    + rewrite (at_pos_None_dims _ _ _ _ _ (createEmptyGrid_dims _ _) Hin).
      by rewrite (at_pos_None_dims _ _ _ _ _ Hrect Hin).
Qed.

(** C1: on a non-empty rectangular grid and a table of seven rules, the
    transition returns a grid of the same height and width whose cell at
    every position follows from the input cell there, the number [n] of its
    live neighbours and [delta = rules[n]]: a live cell with
    [wealth + delta > 0] ages by one and takes the new wealth, a live cell
    with [wealth + delta <= 0] becomes the dead cell (no wealth is kept), a
    dead cell with [delta > 0] is born with age 1 and the starting wealth,
    and a dead cell with [delta <= 0] stays the dead cell. *)
Theorem computeNextGeneration_rule grid wealthRules startingWealth :
  rectangular grid → grid ≠ [] → length wealthRules = 7%nat →
  ∃ grid', computeNextGeneration grid wealthRules startingWealth = Ret grid'
    ∧ dims grid' (length grid) (gridWidth grid)
    ∧ ∀ row col cell, at_pos grid row col = Some cell →
        ∃ n delta cell',
          getNeighborCount grid row col = Ret n
          ∧ idx wealthRules n = Some delta
          ∧ at_pos grid' row col = Some cell'
          ∧ (age cell > 0 → wealth cell + delta > 0 →
               cell' = {| age := age cell + 1; wealth := wealth cell + delta |})
          ∧ (age cell > 0 → wealth cell + delta ≤ 0 →
               cell' = {| age := 0; wealth := 0 |})
          ∧ (age cell = 0 → delta > 0 →
               cell' = {| age := 1; wealth := startingWealth |})
          ∧ (age cell = 0 → delta ≤ 0 →
               cell' = {| age := 0; wealth := 0 |}).
Proof.
  intros Hrect Hne Hlen.
  destruct (computeNextGeneration_pointwise grid wealthRules startingWealth
              Hrect Hne) as (grid' & Hrun & Hd & Hpos).
  exists grid'. split; [done|]. split; [done|]. intros row col cell Hcell.
  assert (inBounds grid row col) as [Hrow Hcol]
    by (apply rectangular_at_pos; eauto).
  pose proof (liveNeighbors_range grid row col) as Hn.
  destruct (proj2 (idx_is_Some wealthRules (liveNeighbors grid row col)))
    as [delta Hdelta]; [lia|].
  exists (liveNeighbors grid row col), delta. eexists.
  split; [apply getNeighborCount_spec; (done || lia)|]. split; [done|].
  split; [by rewrite Hpos, Hcell|].
  unfold stepCell, wealthChangeOf. rewrite Hdelta. simpl.
  repeat split; intros; repeat case_bool_decide; (done || lia).
Qed.

Lemma computeNextGeneration_rule_witness :
  ∃ grid', computeNextGeneration sampleGrid sampleRules 10 = Ret grid'
    ∧ at_pos grid' 1 1 = Some {| age := 1; wealth := 10 |}
    ∧ at_pos grid' 1 0 = Some {| age := 0; wealth := 0 |}.
Proof.
  destruct (computeNextGeneration_rule sampleGrid sampleRules 10)
    as (grid' & Hrun & _ & _).
  - split; [reflexivity|]. repeat constructor.
  - discriminate.
  - reflexivity.
  - exists grid'. split; [exact Hrun|].
    vm_compute in Hrun. injection Hrun as <-. split; reflexivity.
Defined.

(** C2: at every position of a rectangular grid the neighbour count is
    returned, lies between 0 and 6, and is the number of offsets of the
    row's parity whose target is in the grid and holds a cell with
    [age > 0]; targets outside the grid add nothing. *)
Theorem getNeighborCount_counts grid row col :
  rectangular grid → inBounds grid row col →
  ∃ n, getNeighborCount grid row col = Ret n
    ∧ 0 ≤ n ≤ 6
    ∧ n = Z.of_nat (length (filter (λ d, liveTarget grid row col d)
                                   (getHexNeighborOffsets (Z.odd row)))).
Proof.
  intros Hrect [Hrow Hcol]. exists (liveNeighbors grid row col).
  split; [|split; [apply liveNeighbors_range|done]].
  apply getNeighborCount_spec; [done| |lia].
  intros ->. simpl in Hrow. lia.
Qed.

Lemma getNeighborCount_counts_witness :
  ∃ n, getNeighborCount sampleGrid 1 1 = Ret n ∧ 0 ≤ n ≤ 6 ∧ n = 2.
Proof.
  destruct (getNeighborCount_counts sampleGrid 1 1) as (n & Hrun & Hn & Heq).
  - split; [reflexivity|]. repeat constructor.
  - split; vm_compute; intuition discriminate.
  - exists n. split; [exact Hrun|]. split; [exact Hn|]. rewrite Heq. reflexivity.
Defined.

(** C10: the transition is total for a rule table of any length: on a
    non-empty rectangular grid it returns a grid of the same dimensions,
    and a position whose neighbour count has no entry in the table is
    updated as under a wealth delta of 0. *)
Theorem computeNextGeneration_any_rules grid wealthRules startingWealth :
  rectangular grid → grid ≠ [] →
  ∃ grid', computeNextGeneration grid wealthRules startingWealth = Ret grid'
    ∧ dims grid' (length grid) (gridWidth grid)
    ∧ ∀ row col cell n,
        at_pos grid row col = Some cell →
        getNeighborCount grid row col = Ret n →
        Z.of_nat (length wealthRules) ≤ n →
        at_pos grid' row col =
          Some (if bool_decide (age cell > 0 ∧ wealth cell + 0 > 0)
                then {| age := age cell + 1; wealth := wealth cell + 0 |}
                else {| age := 0; wealth := 0 |}).
Proof.
  intros Hrect Hne.
  destruct (computeNextGeneration_pointwise grid wealthRules startingWealth
              Hrect Hne) as (grid' & Hrun & Hd & Hpos).
  exists grid'. split; [done|]. split; [done|].
  intros row col cell n Hcell Hn Hlen.
  assert (inBounds grid row col) as [Hrow Hcol]
    by (apply rectangular_at_pos; eauto).
  rewrite getNeighborCount_spec in Hn by (done || lia). injection Hn as <-.
  rewrite Hpos, Hcell. simpl. f_equal.
  assert (idx wealthRules (liveNeighbors grid row col) = None) as Hnone.
  { apply eq_None_not_Some. rewrite idx_is_Some. lia. }
  unfold stepCell, wealthChangeOf. rewrite Hnone. simpl.
  repeat case_bool_decide; (done || lia).
Qed.

Lemma computeNextGeneration_any_rules_witness :
  ∃ grid', computeNextGeneration sampleGrid [] 10 = Ret grid'
    ∧ at_pos grid' 1 0 = Some {| age := 6; wealth := 3 |}.
Proof.
  destruct (computeNextGeneration_any_rules sampleGrid [] 10)
    as (grid' & Hrun & _ & Hpos).
  - split; [reflexivity|]. repeat constructor.
  - discriminate.
  - exists grid'. split; [exact Hrun|].
    apply (Hpos 1 0 {| age := 5; wealth := 3 |} 1); [reflexivity..|].
    simpl. lia.
Defined.

(** ** Resizing *)

Lemma spread_id cell : spread cell = cell.
Proof. by destruct cell. Qed.

Lemma at_pos_Some grid row col cell :
  at_pos grid row col = Some cell ↔
  ∃ r, idx grid row = Some r ∧ idx r col = Some cell.
Proof.
  unfold at_pos. destruct (idx grid row) as [r|]; simpl; naive_solver.
Qed.

(** C5: on a rectangular grid, resizing returns a grid of [newHeight] rows
    by [newWidth] columns; every position of the rectangle common to the
    old and the new grid holds the input cell of that position, with its age
    and wealth, and every other position holds the dead cell. *)
Theorem resizeGrid_overlap grid newWidth newHeight :
  rectangular grid →
  ∃ grid', resizeGrid grid newWidth newHeight = Ret grid'
    ∧ dims grid' newHeight newWidth
    ∧ (∀ row col,
         0 ≤ row < Z.of_nat (length grid) `min` Z.of_nat newHeight →
         0 ≤ col < Z.of_nat (gridWidth grid) `min` Z.of_nat newWidth →
         ∃ cell, at_pos grid row col = Some cell
                 ∧ at_pos grid' row col = Some cell)
    ∧ (∀ row col,
         0 ≤ row < Z.of_nat newHeight → 0 ≤ col < Z.of_nat newWidth →
         ¬ (row < Z.of_nat (length grid) `min` Z.of_nat newHeight
            ∧ col < Z.of_nat (gridWidth grid) `min` Z.of_nat newWidth) →
         at_pos grid' row col = Some {| age := 0; wealth := 0 |}).
Proof.
  intros Hrect. unfold resizeGrid. fold (gridWidth grid). cbv zeta.
  pose (F := λ r c, default createEmptyCell (at_pos grid r c)).
  match goal with
  | |- ∃ x, forRange ?H (λ row g, forRange ?W (@?b row) g) ?g0 = _ ∧ _ =>
      destruct (fill_loops F (λ r c g, b r c g) H W newHeight newWidth g0)
        as (g' & Hr & Hd & Hpos)
  end; [lia|lia|apply createEmptyGrid_dims| |].
  - intros r c g Hr Hc. cbv beta.
    destruct (proj2 (rectangular_at_pos grid r c Hrect)) as [cell Hcell];
      [split; lia|].
    unfold F. rewrite Hcell. simpl.
    apply at_pos_Some in Hcell as (rw & -> & ->). by rewrite spread_id.
  - exists g'. split; [exact Hr|]. split; [done|]. split.
    + intros row col Hrow Hcol.
      destruct (proj2 (rectangular_at_pos grid row col Hrect)) as [cell Hcell];
        [split; lia|].
      exists cell. split; [done|]. rewrite Hpos, decide_True by done.
      unfold F. by rewrite Hcell.
    + intros row col Hrow Hcol Hout. rewrite Hpos, decide_False by lia.
      destruct (proj2 (at_pos_dims _ _ _ row col
                         (createEmptyGrid_dims newWidth newHeight)))
        as [cell Hcell]; [done|].
      rewrite Hcell. by rewrite (createEmptyGrid_at_pos _ _ _ _ _ Hcell).
Qed.

Lemma resizeGrid_overlap_witness :
  ∃ grid', resizeGrid sampleGrid 2 5 = Ret grid'
    ∧ at_pos grid' 1 0 = Some {| age := 5; wealth := 3 |}
    ∧ at_pos grid' 4 1 = Some {| age := 0; wealth := 0 |}.
Proof.
  destruct (resizeGrid_overlap sampleGrid 2 5)
    as (grid' & Hrun & _ & Hin & Hout).
  - split; [reflexivity|]. repeat constructor.
  - exists grid'. split; [exact Hrun|]. split.
    + destruct (Hin 1 0) as (cell & Hcell & ->);
        [vm_compute; intuition discriminate..|].
      rewrite <- Hcell. reflexivity.
    + apply Hout; vm_compute; intuition discriminate.
Defined.

(** ** Editing one cell *)

Lemma deepCopy_id grid : deepCopy grid = grid.
Proof.
  unfold deepCopy. rewrite <- (list_fmap_id grid) at 2.
  apply list_fmap_ext. intros _ r _. rewrite <- (list_fmap_id r) at 2.
  apply list_fmap_ext. intros _ c _. apply spread_id.
Qed.

Lemma setAt_at_pos grid row col v cell :
  at_pos grid row col = Some cell →
  ∃ grid', setAt grid row col v = Ret grid' ∧
    ∀ r c, at_pos grid' r c =
           if decide (r = row ∧ c = col) then Some v else at_pos grid r c.
Proof.
  intros (rw & Hrw & Hcell)%at_pos_Some. unfold setAt. rewrite Hrw.
  assert (0 ≤ row < Z.of_nat (length grid)) by (apply idx_is_Some; eauto).
  assert (0 ≤ col < Z.of_nat (length rw)) by (apply idx_is_Some; eauto).
  rewrite decide_True by done. eexists. split; [done|].
  intros r c. unfold at_pos. rewrite idx_insert by lia.
  destruct (decide (r = row)) as [->|Hne]; simpl.
  - rewrite idx_insert by lia. rewrite Hrw. simpl.
    repeat case_decide; naive_solver.
  - rewrite decide_False; [done|naive_solver].
Qed.

Lemma alloc_spec (σ : Store) grid l σ' :
  alloc σ grid = (l, σ') →
  σ !! l = None ∧ σ' !! l = Some grid ∧ ∀ l', l' ≠ l → σ' !! l' = σ !! l'.
Proof.
  unfold alloc. intros [= <- <-].
  split; [apply not_elem_of_dom, is_fresh|].
  split; [apply lookup_insert_eq|].
  intros l' Hne. by apply lookup_insert_ne.
Qed.

(** C4: with the grid reference valid in the store and the position inside
    the grid, [setCell] returns the reference it was given exactly when the
    cell's alive status ([age > 0]) already equals [value], and then the
    store is untouched; otherwise it returns a reference that was not in the
    store, bound to a grid whose cell at the position is
    [{age: 1, wealth: startingWealth}] for [value = true] and
    [{age: 0, wealth: 0}] for [value = false], every other position being
    as in the input grid, which itself is unchanged. *)
Theorem setCell_identity (σ : Store) grid cells row col value startingWealth cell :
  σ !! grid = Some cells → at_pos cells row col = Some cell →
  ∃ grid' σ',
    setCell σ grid row col value startingWealth = Ret (grid', σ')
    ∧ (grid' = grid ↔ bool_decide (age cell > 0) = value)
    ∧ (grid' = grid → σ' = σ)
    ∧ (grid' ≠ grid →
         σ !! grid' = None ∧ σ' !! grid = Some cells
         ∧ ∃ cells', σ' !! grid' = Some cells'
             ∧ at_pos cells' row col =
                 Some (if value
                       then {| age := 1; wealth := startingWealth |}
                       else {| age := 0; wealth := 0 |})
             ∧ ∀ r c, (r, c) ≠ (row, col) →
                 at_pos cells' r c = at_pos cells r c).
Proof.
  intros Hσ Hcell. unfold setCell. rewrite Hσ.
  pose proof Hcell as (rw & Hrw & Hc)%at_pos_Some. rewrite Hrw, Hc.
  assert ((age cell >? 0) = bool_decide (age cell > 0)) as ->.
  { destruct (Z.gtb_spec (age cell) 0); case_bool_decide; (done || lia). }
  case_decide as Heq.
  - exists grid, σ. naive_solver.
  - rewrite deepCopy_id.
    destruct (setAt_at_pos cells row col
                (if value then createAliveCell startingWealth
                 else createEmptyCell) cell Hcell) as (cells' & -> & Hpos).
    simpl. destruct (alloc σ cells') as [l σ'] eqn:Hal.
    apply alloc_spec in Hal as (Hfresh & Hnew & Hold).
    assert (l ≠ grid) as Hne by congruence.
    exists l, σ'. split; [done|]. split; [naive_solver|].
    split; [done|]. intros _. split; [done|].
    split; [by rewrite Hold|]. exists cells'. split; [done|]. split.
    + rewrite Hpos, decide_True by done. by destruct value.
    + intros r c Hrc. rewrite Hpos, decide_False; [done|naive_solver].
Qed.

Lemma setCell_identity_witness :
  ∃ grid' σ', setCell sampleStore 1 0 1 false 10 = Ret (grid', σ')
    ∧ grid' ≠ 1%positive
    ∧ ∃ cells', σ' !! grid' = Some cells'
        ∧ at_pos cells' 0 1 = Some {| age := 0; wealth := 0 |}.
Proof.
  destruct (setCell_identity sampleStore 1 sampleGrid 0 1 false 10
              (createAliveCell 10))
    as (grid' & σ' & Hrun & Hiff & _ & Hnew).
  - reflexivity.
  - reflexivity.
  - assert (grid' ≠ 1%positive) as Hne.
    { intros Heq. apply Hiff in Heq. discriminate Heq. }
    exists grid', σ'. split; [exact Hrun|]. split; [exact Hne|].
    destruct (Hnew Hne) as (_ & _ & cells' & Hcells & Hat & _).
    exists cells'. split; [exact Hcells|exact Hat].
Defined.

(** C7: with the grid reference valid in the store and the position inside
    the grid, [toggleCell] returns a reference that was not in the store,
    hence different from the one it was given, bound to a grid whose cell at
    the position is [{age: 0, wealth: 0}] if the input cell had [age > 0]
    and [{age: 1, wealth: startingWealth}] if it had age 0, every other
    position being as in the input grid, which itself is unchanged. *)
Theorem toggleCell_fresh (σ : Store) grid cells row col startingWealth cell :
  σ !! grid = Some cells → at_pos cells row col = Some cell →
  ∃ grid' σ' cells',
    toggleCell σ grid row col startingWealth = Ret (grid', σ')
    ∧ grid' ≠ grid ∧ σ !! grid' = None
    ∧ σ' !! grid = Some cells ∧ σ' !! grid' = Some cells'
    ∧ (age cell > 0 → at_pos cells' row col = Some {| age := 0; wealth := 0 |})
    ∧ (age cell = 0 →
         at_pos cells' row col = Some {| age := 1; wealth := startingWealth |})
    ∧ ∀ r c, (r, c) ≠ (row, col) → at_pos cells' r c = at_pos cells r c.
Proof.
  intros Hσ Hcell. unfold toggleCell. rewrite Hσ, deepCopy_id.
  rewrite (at_pos_cellAt _ _ _ _ Hcell). simpl.
  destruct (setAt_at_pos cells row col
              (if age cell >? 0 then createEmptyCell
               else createAliveCell startingWealth) cell Hcell)
    as (cells' & Hset & Hpos).
  assert ((if age cell >? 0 then setAt cells row col createEmptyCell
           else setAt cells row col (createAliveCell startingWealth))
          = Ret cells') as -> by (by destruct (age cell >? 0)).
  simpl. destruct (alloc σ cells') as [l σ'] eqn:Hal.
  apply alloc_spec in Hal as (Hfresh & Hnew & Hold).
  assert (l ≠ grid) as Hne by congruence.
  exists l, σ', cells'. split; [done|]. split; [done|]. split; [done|].
  split; [by rewrite Hold|]. split; [done|].
  split; [|split].
  - intros Hage. rewrite Hpos, decide_True by done.
    destruct (Z.gtb_spec (age cell) 0); (done || lia).
  - intros Hage. rewrite Hpos, decide_True by done.
    destruct (Z.gtb_spec (age cell) 0); (done || lia).
  - intros r c Hrc. rewrite Hpos, decide_False; [done|naive_solver].
Qed.

Lemma toggleCell_fresh_witness :
  ∃ grid' σ' cells', toggleCell sampleStore 1 1 1 10 = Ret (grid', σ')
    ∧ grid' ≠ 1%positive
    ∧ σ' !! grid' = Some cells'
    ∧ at_pos cells' 1 1 = Some {| age := 1; wealth := 10 |}.
Proof.
  destruct (toggleCell_fresh sampleStore 1 sampleGrid 1 1 10 createEmptyCell)
    as (grid' & σ' & cells' & Hrun & Hne & _ & _ & Hcells & _ & Hborn & _).
  - reflexivity.
  - reflexivity.
  - exists grid', σ', cells'. split; [exact Hrun|]. split; [exact Hne|].
    split; [exact Hcells|]. apply Hborn. reflexivity.
Defined.

(** ** Randomising *)

Section RandomizeFacts.
Context {S : Type} (randomFn : S → Q * S).
Context (density : Q) (startingWealth : Z).

Lemma drawAt_advance k n s :
  drawAt randomFn k (Nat.iter n (advance randomFn) s)
  = drawAt randomFn (k + n) s.
Proof. unfold drawAt. by rewrite Nat.iter_add. Qed.

Lemma randomize_row width s :
  mapSt (λ _ s, let '(x, s') := randomFn s in (cellOfDraw density startingWealth x, s'))
        (nulls width) s
  = ((λ k, cellOfDraw density startingWealth (drawAt randomFn k s)) <$> seq 0 width,
     Nat.iter width (advance randomFn) s).
Proof.
  revert s. induction width as [|w IH]; intros s; [done|].
  unfold nulls. simpl. fold (nulls w).
  destruct (randomFn s) as [x s1] eqn:Hs. rewrite IH.
  assert (s1 = advance randomFn s) as -> by (unfold advance; by rewrite Hs).
  f_equal.
  - f_equal; [unfold drawAt; simpl; by rewrite Hs|].
    rewrite <- fmap_S_seq, <- list_fmap_compose.
    apply list_fmap_ext. intros _ k _. simpl.
    change (advance randomFn s) with (Nat.iter 1 (advance randomFn) s).
    rewrite drawAt_advance. f_equal. f_equal. lia.
  - by rewrite <- Nat.iter_succ_r.
Qed.

Lemma randomizeGrid_rows width height s :
  randomizeGrid randomFn width height density startingWealth s
  = ((λ r, (λ c, cellOfDraw density startingWealth (drawAt randomFn (r * width + c) s)) <$> seq 0 width)
       <$> seq 0 height,
     Nat.iter (height * width) (advance randomFn) s).
Proof.
  unfold randomizeGrid. fold (cellOfDraw density startingWealth).
  revert s. induction height as [|h IH]; intros s; [done|].
  unfold nulls at 2. simpl. fold (nulls h).
  rewrite randomize_row, IH. f_equal.
  - f_equal. rewrite <- fmap_S_seq, <- list_fmap_compose.
    apply list_fmap_ext. intros _ r _. simpl.
    apply list_fmap_ext. intros _ c _. simpl.
    rewrite drawAt_advance. f_equal. f_equal. lia.
  - by rewrite <- Nat.iter_add, Nat.add_comm.
Qed.

Lemma randomizeGrid_at_pos width height s row col :
  (row < height)%nat → (col < width)%nat →
  at_pos (randomizeGrid randomFn width height density startingWealth s).1
         (Z.of_nat row) (Z.of_nat col)
  = Some (cellOfDraw density startingWealth (drawAt randomFn (row * width + col) s)).
Proof.
  intros Hrow Hcol. rewrite randomizeGrid_rows. simpl. unfold at_pos.
  rewrite idx_of_nat, list_lookup_fmap, lookup_seq_lt by done. simpl.
  by rewrite idx_of_nat, list_lookup_fmap, lookup_seq_lt.
Qed.

Lemma randomizeGrid_dims width height s :
  dims (randomizeGrid randomFn width height density startingWealth s).1
       height width.
Proof.
  rewrite randomizeGrid_rows. simpl. split.
  - by rewrite length_fmap, length_seq.
  - apply Forall_fmap, Forall_forall. intros r _. simpl.
    by rewrite length_fmap, length_seq.
Qed.

End RandomizeFacts.

(** C6: [randomizeGrid] returns a grid of [height] rows by [width] columns
    and draws [height * width] values, one per cell.
    The cell at (row, col) is decided by the one value drawn for it, the
    draw number [row * width + col] of the source: it is
    [{age: 1, wealth: startingWealth}] exactly when that value is strictly
    below [density], and [{age: 0, wealth: 0}] otherwise.  When every draw
    lies in [0, 1), density 0 gives a grid of dead cells only and density 1
    a grid of live cells only. *)
Theorem randomizeGrid_threshold {S : Type} (randomFn : S → Q * S)
    (width height : nat) (density : Q) (startingWealth : Z) (s : S) :
  let grid := (randomizeGrid randomFn width height density startingWealth s).1 in
  dims grid height width
  ∧ (randomizeGrid randomFn width height density startingWealth s).2
    = Nat.iter (height * width) (advance randomFn) s
  ∧ (∀ row col : nat, (row < height)%nat → (col < width)%nat →
       let x := drawAt randomFn (row * width + col) s in
       ((x < density)%Q →
          at_pos grid (Z.of_nat row) (Z.of_nat col)
          = Some {| age := 1; wealth := startingWealth |})
       ∧ (¬ (x < density)%Q →
          at_pos grid (Z.of_nat row) (Z.of_nat col)
          = Some {| age := 0; wealth := 0 |}))
  ∧ ((∀ s', (0 <= (randomFn s').1)%Q ∧ ((randomFn s').1 < 1)%Q) →
       ((density == 0)%Q →
          ∀ row col cell, at_pos grid row col = Some cell →
            cell = {| age := 0; wealth := 0 |})
       ∧ ((density == 1)%Q →
          ∀ row col cell, at_pos grid row col = Some cell →
            cell = {| age := 1; wealth := startingWealth |})).
Proof.
  intros grid. pose proof (randomizeGrid_dims randomFn density startingWealth
                             width height s) as Hd. fold grid in Hd.
  assert (∀ row col : nat, (row < height)%nat → (col < width)%nat →
            at_pos grid (Z.of_nat row) (Z.of_nat col)
            = Some (if Qlt_le_dec (drawAt randomFn (row * width + col) s) density
                    then createAliveCell startingWealth else createEmptyCell))
    as Hpos by (intros; by apply randomizeGrid_at_pos).
  split; [done|]. split; [by rewrite randomizeGrid_rows|]. split.
  - intros row col Hrow Hcol x. rewrite (Hpos row col Hrow Hcol). fold x.
    destruct (Qlt_le_dec x density) as [Hlt|Hge]; split; intros Hx; try done.
    by apply Qle_not_lt in Hge.
  - intros Hrange.
    assert (∀ row col cell, at_pos grid row col = Some cell →
              ∃ x, ((0 <= x)%Q ∧ (x < 1)%Q)
                   ∧ cell = if Qlt_le_dec x density
                            then createAliveCell startingWealth
                            else createEmptyCell) as Hcell.
    { intros row col cell Hc.
      assert (0 ≤ row < Z.of_nat height ∧ 0 ≤ col < Z.of_nat width)
        as [Hrow Hcol] by (apply (at_pos_dims grid _ _ _ _ Hd); eauto).
      rewrite <- (Z2Nat.id row), <- (Z2Nat.id col) in Hc by lia.
      rewrite Hpos in Hc by lia. injection Hc as <-.
      eexists. split; [apply Hrange|done]. }
    split; intros Hdens row col cell Hc;
      destruct (Hcell row col cell Hc) as (x & [H0 H1] & ->);
      destruct (Qlt_le_dec x density) as [Hlt|Hge]; try done.
    + rewrite Hdens in Hlt. by apply Qlt_not_le in Hlt.
    + rewrite Hdens in Hge. by apply Qle_not_lt in Hge.
Qed.

Lemma mockRandom_range (callCount : nat) :
  (0 <= (mockRandom callCount).1)%Q ∧ ((mockRandom callCount).1 < 1)%Q.
Proof.
  unfold mockRandom. cbv zeta. unfold fst.
  destruct (S callCount mod 2 =? 0)%nat; split; vm_compute;
    (reflexivity || discriminate).
Qed.

Lemma randomizeGrid_threshold_witness :
  at_pos (randomizeGrid mockRandom 3 3 1 15 0%nat).1 0 1
    = Some {| age := 1; wealth := 15 |}
  ∧ ∀ row col cell,
      at_pos (randomizeGrid mockRandom 3 3 1 15 0%nat).1 row col = Some cell →
      cell = {| age := 1; wealth := 15 |}.
Proof.
  destruct (randomizeGrid_threshold mockRandom 3 3 1 15 0%nat)
    as (_ & _ & Hpos & Hall).
  split.
  - apply (Hpos 0%nat 1%nat); [lia|lia|]. reflexivity.
  - apply Hall; [exact mockRandom_range|reflexivity].
Defined.

(** ** Extinction of an isolated cell *)

Lemma dims_rectangular grid h w :
  dims grid h w → grid ≠ [] → rectangular grid ∧ gridWidth grid = w.
Proof.
  intros [Hh Hw] Hne. destruct grid as [|row0 rest]; [done|].
  assert (gridWidth (row0 :: rest) = w) as Hgw.
  { unfold gridWidth. simpl. by apply Forall_cons in Hw as [? _]. }
  split; [|done]. split; [done|]. by rewrite Hgw.
Qed.

Lemma filter_at_most_one {A} (P : A → Prop) `{!∀ x, Decision (P x)}
    (a : A) (l : list A) :
  NoDup l → (∀ x, x ∈ l → P x → x = a) → (length (filter P l) ≤ 1)%nat.
Proof.
  intros Hnd Hall. pose proof (NoDup_filter P l Hnd) as Hf.
  assert (∀ x, x ∈ filter P l → x = a) as Heq.
  { intros x [? ?]%list_elem_of_filter. by apply Hall. }
  destruct (filter P l) as [|y [|z t]]; simpl; [lia..|].
  rewrite (Heq y), (Heq z) in Hf by set_solver.
  apply NoDup_cons in Hf as [Hin _]. set_solver.
Qed.

Lemma offsets_NoDup isOddRow : NoDup (getHexNeighborOffsets isOddRow).
Proof. destruct isOddRow; by compute_done. Qed.

Lemma offsets_nonzero isOddRow : (0, 0) ∉ getHexNeighborOffsets isOddRow.
Proof. destruct isOddRow; by compute_done. Qed.

Section Isolated.
Context (grid : Grid) (row col : Z) (cell : CellData).
Context (Hone : onlyAlive grid row col cell).

Lemma liveTarget_centre r c d :
  liveTarget grid r c d → d = (row - r, col - c).
Proof.
  destruct Hone as (_ & _ & Hdead). unfold liveTarget.
  intros [_ Hlive]%andb_prop_elim.
  destruct (at_pos grid (r + d.1) (c + d.2)) as [x|] eqn:Hx; [|done].
  apply bool_decide_unpack in Hlive.
  destruct (decide ((r + d.1, c + d.2) = (row, col))) as [[= Hr Hc]|Hne].
  - destruct d as [dr dc]. simpl in *. f_equal; lia.
  - by destruct (Hdead _ _ _ Hx Hne).
Qed.

Lemma liveNeighbors_centre : liveNeighbors grid row col = 0.
Proof.
  unfold liveNeighbors.
  destruct (filter _ _) as [|d t] eqn:Hf; [done|].
  assert (d ∈ filter (λ d, liveTarget grid row col d)
                     (getHexNeighborOffsets (Z.odd row))) as Hd
    by (rewrite Hf; set_solver).
  apply list_elem_of_filter in Hd as [Hlive Hin].
  apply liveTarget_centre in Hlive. rewrite !Z.sub_diag in Hlive. subst d.
  by apply offsets_nonzero in Hin.
Qed.

Lemma liveNeighbors_elsewhere r c : 0 ≤ liveNeighbors grid r c ≤ 1.
Proof.
  unfold liveNeighbors. split; [lia|].
  pose proof (filter_at_most_one (λ d, liveTarget grid r c d)
                (row - r, col - c) (getHexNeighborOffsets (Z.odd r))
                (offsets_NoDup _)) as Hle.
  apply Nat2Z.inj_le in Hle; [done|].
  intros d _. apply liveTarget_centre.
Qed.

(** One step under the default rules: the centre pays 1, nothing is born. *)
Lemma step_isolated startingWealth :
  ∃ grid',
    computeNextGeneration grid defaultWealthRules startingWealth = Ret grid'
    ∧ onlyAlive grid' row col
        (if bool_decide (age cell > 0) then
           if bool_decide (wealth cell - 1 > 0)
           then {| age := age cell + 1; wealth := wealth cell - 1 |}
           else {| age := 0; wealth := 0 |}
         else {| age := 0; wealth := 0 |}).
Proof.
  pose proof Hone as (Hrect & Hcell & Hdead).
  assert (grid ≠ []) as Hne.
  { intros ->. apply at_pos_Some in Hcell as (rw & [_ Hrw]%idx_Some & _).
    by rewrite lookup_nil in Hrw. }
  destruct (computeNextGeneration_pointwise grid defaultWealthRules
              startingWealth Hrect Hne) as (grid' & Hrun & Hd & Hpos).
  exists grid'. split; [done|].
  assert (grid' ≠ []) as Hne'.
  { destruct Hd as [Hlen _]. destruct grid, grid'; done. }
  destruct (dims_rectangular _ _ _ Hd Hne') as [Hrect' _].
  split; [done|]. split.
  - rewrite Hpos, Hcell, liveNeighbors_centre. reflexivity.
  - intros r c x Hx Hrc. rewrite Hpos in Hx.
    destruct (at_pos grid r c) as [y|] eqn:Hy; [|done].
    injection Hx as <-. pose proof (Hdead r c y Hy Hrc) as Hy0.
    pose proof (liveNeighbors_elsewhere r c) as Hn.
    assert (wealthChangeOf defaultWealthRules (liveNeighbors grid r c) ≤ 0).
    { assert (liveNeighbors grid r c = 0 ∨ liveNeighbors grid r c = 1)
        as [-> | ->] by lia; by compute. }
    unfold stepCell. rewrite bool_decide_eq_false_2 by done.
    case_bool_decide; simpl; lia.
Qed.

End Isolated.

Lemma generations_snoc k grid wealthRules startingWealth :
  generations (S k) grid wealthRules startingWealth
  = grid' ← generations k grid wealthRules startingWealth;
    computeNextGeneration grid' wealthRules startingWealth.
Proof.
  revert grid. induction k as [|k IH]; intros grid.
  - simpl. by destruct (computeNextGeneration _ _ _).
  - change (generations (S (S k)) grid wealthRules startingWealth)
      with (grid' ← computeNextGeneration grid wealthRules startingWealth;
            generations (S k) grid' wealthRules startingWealth).
    simpl generations at 2.
    destruct (computeNextGeneration grid _ _) as [g1|e]; [|done].
    apply IH.
Qed.

Lemma generations_alive k grid row col a w startingWealth :
  onlyAlive grid row col {| age := a; wealth := w |} →
  a > 0 → Z.of_nat k < w →
  ∃ grid', generations k grid defaultWealthRules startingWealth = Ret grid'
    ∧ onlyAlive grid' row col
        {| age := a + Z.of_nat k; wealth := w - Z.of_nat k |}.
Proof.
  revert grid a w. induction k as [|k IH]; intros grid a w Hone Ha Hw.
  - exists grid. split; [done|]. simpl. by rewrite Z.add_0_r, Z.sub_0_r.
  - destruct (step_isolated _ _ _ _ Hone startingWealth) as (g1 & Hrun & Hone1).
    simpl in Hone1. rewrite !bool_decide_eq_true_2 in Hone1 by lia.
    destruct (IH g1 (a + 1) (w - 1) Hone1) as (g2 & Hrun2 & Hone2); [lia..|].
    exists g2. simpl generations. rewrite Hrun. split; [done|].
    by replace (a + Z.of_nat (S k)) with (a + 1 + Z.of_nat k) by lia;
       replace (w - Z.of_nat (S k)) with (w - 1 - Z.of_nat k) by lia.
Qed.

(** C8: from a grid whose only live cell is [{age: 1, wealth: 10}], under
    the default rules and starting wealth 10: after each of the first nine
    steps that cell is still the only live one, one generation older and one
    unit poorer (so nothing was born), and the tenth step, where its wealth
    would reach 0, leaves no cell with [age > 0]. *)
Theorem extinction_scenario grid row col :
  onlyAlive grid row col {| age := 1; wealth := 10 |} →
  (∀ k : nat, (k ≤ 9)%nat →
     ∃ grid', generations k grid defaultWealthRules 10 = Ret grid'
       ∧ onlyAlive grid' row col
           {| age := 1 + Z.of_nat k; wealth := 10 - Z.of_nat k |})
  ∧ ∃ grid', generations 10 grid defaultWealthRules 10 = Ret grid'
      ∧ ∀ r c x, at_pos grid' r c = Some x → ¬ age x > 0.
Proof.
  intros Hone. split.
  - intros k Hk. apply generations_alive; [done|lia|lia].
  - destruct (generations_alive 9 grid row col 1 10 10 Hone)
      as (g9 & Hrun9 & Hone9); [lia..|].
    destruct (step_isolated _ _ _ _ Hone9 10) as (g10 & Hrun10 & Hone10).
    exists g10. split.
    + rewrite generations_snoc, Hrun9. exact Hrun10.
    + destruct Hone10 as (_ & Hc & Hdead). intros r c x Hx.
      destruct (decide ((r, c) = (row, col))) as [[= -> ->]|Hne].
      * rewrite Hc in Hx. injection Hx as <-. simpl. lia.
      * by apply (Hdead r c).
Qed.

Lemma isolatedGrid_onlyAlive :
  onlyAlive isolatedGrid 1 1 {| age := 1; wealth := 10 |}.
Proof.
  assert (rectangular isolatedGrid) as Hrect
    by (split; [reflexivity|repeat constructor]).
  split; [done|]. split; [reflexivity|].
  intros r c x Hx Hne.
  assert (inBounds isolatedGrid r c) as [Hr Hc]
    by (apply rectangular_at_pos; eauto).
  change (Z.of_nat (length isolatedGrid)) with 3 in Hr.
  change (Z.of_nat (gridWidth isolatedGrid)) with 3 in Hc.
  assert (r = 0 ∨ r = 1 ∨ r = 2) as [-> | [-> | ->]] by lia;
    assert (c = 0 ∨ c = 1 ∨ c = 2) as [-> | [-> | ->]] by lia;
    try done; injection Hx as <-; simpl; lia.
Qed.

Lemma extinction_scenario_witness :
  (∃ grid', generations 9 isolatedGrid defaultWealthRules 10 = Ret grid'
     ∧ at_pos grid' 1 1 = Some {| age := 10; wealth := 1 |})
  ∧ ∃ grid', generations 10 isolatedGrid defaultWealthRules 10 = Ret grid'
      ∧ ∀ r c x, at_pos grid' r c = Some x → ¬ age x > 0.
Proof.
  destruct (extinction_scenario isolatedGrid 1 1 isolatedGrid_onlyAlive)
    as [Halive Hdead].
  split; [|exact Hdead].
  destruct (Halive 9%nat) as (grid' & Hrun & _ & Hcell & _); [lia|].
  exists grid'. split; [exact Hrun|exact Hcell].
Defined.

(** ** The cell invariant *)

Lemma createEmptyCell_ok : cell_ok createEmptyCell.
Proof. by split. Qed.

Lemma createAliveCell_ok startingWealth : cell_ok (createAliveCell startingWealth).
Proof. by split. Qed.

Create HintDb cells.
#[local] Hint Resolve createEmptyCell_ok createAliveCell_ok : cells.

Lemma idx_elem_of {A} (a : list A) i x : idx a i = Some x → x ∈ a.
Proof. intros [_ Hx]%idx_Some. by eapply list_elem_of_lookup_2. Qed.

Lemma at_pos_ok grid row col cell :
  grid_ok grid → at_pos grid row col = Some cell → cell_ok cell.
Proof.
  intros Hok (r & Hr%idx_elem_of & Hc%idx_elem_of)%at_pos_Some.
  unfold grid_ok in Hok. rewrite Forall_forall in Hok.
  specialize (Hok r Hr). rewrite Forall_forall in Hok. by apply Hok.
Qed.

Lemma cellAt_Ret grid row col cell :
  cellAt grid row col = Ret cell → at_pos grid row col = Some cell.
Proof.
  unfold cellAt, at_pos. destruct (idx grid row) as [r|]; [|done]. simpl.
  destruct (idx r col); [|done]. by intros [= ->].
Qed.

Lemma setAt_grid_ok grid row col v grid' :
  grid_ok grid → cell_ok v → setAt grid row col v = Ret grid' → grid_ok grid'.
Proof.
  intros Hok Hv. unfold setAt.
  destruct (idx grid row) as [r|] eqn:Hr; [|done].
  case_decide; [|done]. intros [= <-].
  apply Forall_insert; [done|]. apply Forall_insert; [|done].
  apply idx_elem_of in Hr. unfold grid_ok in Hok. rewrite Forall_forall in Hok.
  by apply Hok.
Qed.

Lemma createEmptyGrid_ok width height : grid_ok (createEmptyGrid width height).
Proof.
  rewrite createEmptyGrid_replicate.
  apply Forall_replicate, Forall_replicate, createEmptyCell_ok.
Qed.

Lemma randomizeGrid_ok {S : Type} (randomFn : S → Q * S) width height density
    startingWealth s :
  grid_ok (randomizeGrid randomFn width height density startingWealth s).1.
Proof.
  rewrite randomizeGrid_rows. simpl.
  apply Forall_fmap, Forall_forall. intros r _. simpl.
  apply Forall_fmap, Forall_forall. intros c _. simpl.
  unfold cellOfDraw. destruct (Qlt_le_dec _ _); auto with cells.
Qed.

Lemma computeNextGeneration_ok grid wealthRules startingWealth grid' :
  computeNextGeneration grid wealthRules startingWealth = Ret grid' →
  grid_ok grid'.
Proof.
  unfold computeNextGeneration. destruct (grid !! 0%nat) as [row0|]; [|done].
  cbv zeta. unfold forRange.
  apply forOf_preserve; [apply createEmptyGrid_ok|].
  intros row g1 g2 Hg1. apply forOf_preserve; [done|].
  intros col g3 g4 Hg3.
  destruct (getNeighborCount grid row col) as [n|]; [|done]. simpl.
  destruct (cellAt grid row col) as [cell|]; [|done]. simpl.
  destruct (Z.gtb_spec (age cell) 0);
    [destruct (_ >? 0)|destruct (_ >? 0)];
    apply setAt_grid_ok; auto with cells.
  split; simpl; lia.
Qed.

Lemma resizeGrid_ok grid newWidth newHeight grid' :
  grid_ok grid → resizeGrid grid newWidth newHeight = Ret grid' → grid_ok grid'.
Proof.
  intros Hok. unfold resizeGrid. cbv zeta. unfold forRange.
  apply forOf_preserve; [apply createEmptyGrid_ok|].
  intros row g1 g2 Hg1. apply forOf_preserve; [done|].
  intros col g3 g4 Hg3.
  destruct (idx grid row) as [r|] eqn:Hr; [|done].
  destruct (idx r col) as [cell|] eqn:Hc; [|done].
  apply setAt_grid_ok; [done|]. rewrite spread_id.
  apply (at_pos_ok grid row col); [done|]. apply at_pos_Some. eauto.
Qed.

Lemma toggleCell_ok (σ : Store) grid cells row col startingWealth grid' σ' :
  σ !! grid = Some cells → grid_ok cells →
  toggleCell σ grid row col startingWealth = Ret (grid', σ') →
  ∃ cells', σ' !! grid' = Some cells' ∧ grid_ok cells'.
Proof.
  intros Hσ Hok. unfold toggleCell. rewrite Hσ, deepCopy_id.
  destruct (cellAt cells row col) as [cell|]; [|done]. simpl.
  match goal with
  | |- (?m ≫= _) = _ → _ => destruct m as [cells'|] eqn:Hset; [|done]
  end.
  simpl. intros [= <- <-]. exists cells'. split; [apply lookup_insert_eq|].
  revert Hset.
  destruct (age cell >? 0); intros Hset;
    (eapply setAt_grid_ok; [exact Hok| |exact Hset]); auto with cells.
Qed.

Lemma setCell_ok (σ : Store) grid cells row col value startingWealth grid' σ' :
  σ !! grid = Some cells → grid_ok cells →
  setCell σ grid row col value startingWealth = Ret (grid', σ') →
  ∃ cells', σ' !! grid' = Some cells' ∧ grid_ok cells'.
Proof.
  intros Hσ Hok. unfold setCell. rewrite Hσ, deepCopy_id. cbv zeta.
  case_decide.
  - intros [= <- <-]. eauto.
  - destruct (setAt cells row col _) as [cells'|] eqn:Hset; [|done].
    simpl. intros [= <- <-]. exists cells'. split; [apply lookup_insert_eq|].
    eapply setAt_grid_ok; [done| |done]. destruct value; auto with cells.
Qed.

(** C9: the cell invariant ([age >= 0], and a cell of age 0 has wealth 0) holds
    of every cell built by [createEmptyGrid] and by [randomizeGrid], whatever
    the starting wealth, and when it holds of every cell of a grid it holds
    of every cell of the grid returned for it by [computeNextGeneration],
    [resizeGrid], [toggleCell] and [setCell]. *)
Theorem cell_invariant (grid : Grid) :
  (∀ width height, grid_ok (createEmptyGrid width height))
  ∧ (∀ (S : Type) (randomFn : S → Q * S) width height density startingWealth s,
       grid_ok (randomizeGrid randomFn width height density startingWealth s).1)
  ∧ (grid_ok grid →
       (∀ wealthRules startingWealth grid',
          computeNextGeneration grid wealthRules startingWealth = Ret grid' →
          grid_ok grid')
       ∧ (∀ newWidth newHeight grid',
            resizeGrid grid newWidth newHeight = Ret grid' → grid_ok grid')
       ∧ (∀ (σ : Store) ref row col startingWealth ref' σ',
            σ !! ref = Some grid →
            toggleCell σ ref row col startingWealth = Ret (ref', σ') →
            ∃ grid', σ' !! ref' = Some grid' ∧ grid_ok grid')
       ∧ (∀ (σ : Store) ref row col value startingWealth ref' σ',
            σ !! ref = Some grid →
            setCell σ ref row col value startingWealth = Ret (ref', σ') →
            ∃ grid', σ' !! ref' = Some grid' ∧ grid_ok grid')).
Proof.
  split; [apply createEmptyGrid_ok|]. split; [intros; apply randomizeGrid_ok|].
  intros Hok. repeat split.
  - intros ? ? ?. apply computeNextGeneration_ok.
  - intros ? ? ?. by apply resizeGrid_ok.
  - intros. by eapply toggleCell_ok.
  - intros. by eapply setCell_ok.
Qed.

Lemma sampleGrid_ok : grid_ok sampleGrid.
Proof. repeat constructor; simpl; (lia || discriminate). Qed.

Lemma cell_invariant_witness :
  (∃ grid', computeNextGeneration sampleGrid sampleRules 10 = Ret grid'
     ∧ grid_ok grid')
  ∧ (∃ grid', resizeGrid sampleGrid 2 5 = Ret grid' ∧ grid_ok grid')
  ∧ (∃ ref' σ' grid', toggleCell sampleStore 1 1 1 10 = Ret (ref', σ')
       ∧ σ' !! ref' = Some grid' ∧ grid_ok grid')
  ∧ (∃ ref' σ' grid', setCell sampleStore 1 0 1 false 10 = Ret (ref', σ')
       ∧ σ' !! ref' = Some grid' ∧ grid_ok grid').
Proof.
  destruct (cell_invariant sampleGrid) as (_ & _ & Hkeep).
  destruct (Hkeep sampleGrid_ok) as (Hstep & Hresize & Htoggle & Hset).
  split; [|split; [|split]].
  - destruct (computeNextGeneration sampleGrid sampleRules 10)
      as [grid'|] eqn:Hrun; [|discriminate (eq_sym Hrun)].
    exists grid'. split; [reflexivity|]. exact (Hstep _ _ _ Hrun).
  - destruct (resizeGrid sampleGrid 2 5)
      as [grid'|] eqn:Hrun; [|discriminate (eq_sym Hrun)].
    exists grid'. split; [reflexivity|]. exact (Hresize _ _ _ Hrun).
  - destruct (toggleCell sampleStore 1 1 1 10)
      as [[ref' σ']|] eqn:Hrun; [|vm_compute in Hrun; discriminate Hrun].
    destruct (Htoggle sampleStore 1%positive 1 1 10 ref' σ' eq_refl Hrun)
      as (grid' & Hgrid' & Hok').
    exists ref', σ', grid'. split; [reflexivity|]. split; [exact Hgrid'|exact Hok'].
  - destruct (setCell sampleStore 1 0 1 false 10)
      as [[ref' σ']|] eqn:Hrun; [|vm_compute in Hrun; discriminate Hrun].
    destruct (Hset sampleStore 1%positive 0 1 false 10 ref' σ' eq_refl Hrun)
      as (grid' & Hgrid' & Hok').
    exists ref', σ', grid'. split; [reflexivity|]. split; [exact Hgrid'|exact Hok'].
Defined.

(** ** Neighbour positions *)

Lemma getNeighborPositions_filter row col height width :
  getNeighborPositions row col height width
  = (λ d : Z * Z, Pos.mk (row + d.1) (col + d.2))
    <$> filter (λ d : Z * Z, (0 ≤ row + d.1 < height) ∧ (0 ≤ col + d.2 < width))
          (getHexNeighborOffsets (Z.rem row 2 =? 1)).
Proof.
  unfold getNeighborPositions. cbv zeta.
  generalize (getHexNeighborOffsets (Z.rem row 2 =? 1)). intros offs.
  match goal with |- fold_left ?f _ _ = _ => set (push := f) end.
  cut (∀ acc, fold_left push offs acc
         = acc ++ ((λ d : Z * Z, Pos.mk (row + d.1) (col + d.2))
                   <$> filter (λ d : Z * Z, (0 ≤ row + d.1 < height)
                                            ∧ (0 ≤ col + d.2 < width)) offs)).
  { intros Hacc. by rewrite Hacc. }
  induction offs as [|[dr dc] offs IH]; intros acc; simpl.
  { by rewrite app_nil_r. }
  rewrite IH, filter_cons. simpl.
  case_decide as Hin.
  - replace ((0 <=? row + dr) && (row + dr <? height)
             && (0 <=? col + dc) && (col + dc <? width)) with true
      by (symmetry; repeat (apply andb_true_intro; split); lia).
    by rewrite <- app_assoc.
  - replace ((0 <=? row + dr) && (row + dr <? height)
             && (0 <=? col + dc) && (col + dc <? width)) with false; [done|].
    symmetry. apply not_true_is_false. intros Ht. apply Hin.
    repeat (apply andb_prop in Ht as [Ht ?]). lia.
Qed.

#[local] Instance Pos_shift_inj row col :
  Inj (=) (=) (λ d : Z * Z, Pos.mk (row + d.1) (col + d.2)).
Proof. intros [a b] [a' b'] [= Ha Hb]. simpl in *. f_equal; lia. Qed.

(** X1: a position is returned by [getNeighborPositions] exactly when it
    lies within [height] by [width] and its offset from (row, col) is in
    the table chosen by [row % 2 === 1]. *)
Theorem getNeighborPositions_elem row col height width (p : Pos.t) :
  p ∈ getNeighborPositions row col height width ↔
  (0 ≤ Pos.row p < height ∧ 0 ≤ Pos.col p < width)
  ∧ (Pos.row p - row, Pos.col p - col)
      ∈ getHexNeighborOffsets (Z.rem row 2 =? 1).
Proof.
  rewrite getNeighborPositions_filter, list_elem_of_fmap. split.
  - intros ([dr dc] & -> & [Hin Hd]%list_elem_of_filter). simpl in *.
    split; [done|].
    by replace (row + dr - row) with dr by lia;
       replace (col + dc - col) with dc by lia.
  - intros [Hin Hd]. exists (Pos.row p - row, Pos.col p - col). split.
    + destruct p as [r c]. simpl. f_equal; lia.
    + apply list_elem_of_filter. split; [simpl; lia|done].
Qed.

(** X2: [getNeighborPositions] returns at most six positions, all different,
    and never the position it was asked about. *)
Theorem getNeighborPositions_distinct row col height width :
  (length (getNeighborPositions row col height width) ≤ 6)%nat
  ∧ NoDup (getNeighborPositions row col height width)
  ∧ Pos.mk row col ∉ getNeighborPositions row col height width.
Proof.
  rewrite getNeighborPositions_filter. split; [|split].
  - rewrite length_fmap.
    etrans; [apply length_filter|]. by destruct (Z.rem row 2 =? 1).
  - apply (NoDup_fmap_2 _), NoDup_filter, offsets_NoDup.
  - intros ([dr dc] & [= Hr Hc] & [_ Hd]%list_elem_of_filter)%list_elem_of_fmap.
    simpl in *. assert (dr = 0) as -> by lia. assert (dc = 0) as -> by lia.
    by apply offsets_nonzero in Hd.
Qed.

(** X3: [getNeighborPositions] returns six positions exactly for a position
    with a full ring around it inside the grid: at least one row above and
    below, at least one column to the left and to the right. *)
Theorem getNeighborPositions_interior row col height width :
  length (getNeighborPositions row col height width) = 6%nat
  ↔ 1 ≤ row ∧ row + 1 < height ∧ 1 ≤ col ∧ col + 1 < width.
Proof.
  rewrite getNeighborPositions_filter, length_fmap. split.
  - intros Hlen.
    assert (∀ d : Z * Z, d ∈ getHexNeighborOffsets (Z.rem row 2 =? 1) →
              (0 ≤ row + d.1 < height) ∧ (0 ≤ col + d.2 < width)) as Hall.
    { intros d Hd.
      destruct (decide ((0 ≤ row + d.1 < height) ∧ (0 ≤ col + d.2 < width)))
        as [Hin|Hout]; [done|].
      pose proof (length_filter_lt
                    (λ d : Z * Z, (0 ≤ row + d.1 < height)
                                  ∧ (0 ≤ col + d.2 < width)) _ d Hd Hout) as Hlt.
      assert (length (getHexNeighborOffsets (Z.rem row 2 =? 1)) = 6%nat)
        by (by destruct (Z.rem row 2 =? 1)).
      lia. }
    pose proof (Hall (-1, 0)) as Hup. pose proof (Hall (1, 0)) as Hdown.
    pose proof (Hall (0, -1)) as Hleft. pose proof (Hall (0, 1)) as Hright.
    simpl in *.
    destruct (Z.rem row 2 =? 1); simpl in *;
      specialize (Hup ltac:(set_solver)); specialize (Hdown ltac:(set_solver));
      specialize (Hleft ltac:(set_solver));
      specialize (Hright ltac:(set_solver)); lia.
  - intros (Hr1 & Hr2 & Hc1 & Hc2).
    destruct (Z.rem row 2 =? 1); simpl;
      repeat (rewrite filter_cons_True by (simpl; lia)); done.
Qed.

Lemma getNeighborPositions_interior_witness :
  length (getNeighborPositions 1 1 3 3) = 6%nat.
Proof. apply getNeighborPositions_interior; lia. Defined.

Lemma offsets_symmetric (r c r' c' : Z) :
  (r' - r, c' - c) ∈ getHexNeighborOffsets (Z.odd r) →
  (r - r', c - c') ∈ getHexNeighborOffsets (Z.odd r').
Proof.
  intros Hd.
  assert (∃ dr dc, r' = r + dr ∧ c' = c + dc
                   ∧ (dr, dc) ∈ getHexNeighborOffsets (Z.odd r))
    as (dr & dc & -> & -> & Hin).
  { exists (r' - r), (c' - c). repeat split; (lia || done). }
  clear Hd.
  replace (r - (r + dr)) with (- dr) by lia.
  replace (c - (c + dc)) with (- dc) by lia.
  destruct (Z.odd r) eqn:Hodd; simpl in Hin;
    repeat (apply elem_of_cons in Hin as [[= -> ->]|Hin]);
    try (by apply elem_of_nil in Hin);
    rewrite ?Z.add_0_r, ?Z.odd_add, ?Hodd; simpl;
    set_solver.
Qed.

(** X4: adjacency is symmetric: for two positions inside the grid, the
    second is a neighbour position of the first exactly when the first is a
    neighbour position of the second. *)
Theorem getNeighborPositions_symmetric row col row' col' height width :
  0 ≤ row < height → 0 ≤ col < width →
  0 ≤ row' < height → 0 ≤ col' < width →
  Pos.mk row' col' ∈ getNeighborPositions row col height width ↔
  Pos.mk row col ∈ getNeighborPositions row' col' height width.
Proof.
  intros Hr Hc Hr' Hc'. rewrite !getNeighborPositions_elem. simpl.
  rewrite !rem2_odd by lia.
  split; intros [_ Hd]; (split; [done|]); by apply offsets_symmetric.
Qed.

Lemma getNeighborPositions_symmetric_witness :
  Pos.mk 2 1 ∈ getNeighborPositions 1 1 3 3 ↔
  Pos.mk 1 1 ∈ getNeighborPositions 2 1 3 3.
Proof. apply getNeighborPositions_symmetric; lia. Defined.

Lemma filter_positions_length grid row col offs :
  length (filter (λ p, aliveAt grid p)
            ((λ d : Z * Z, Pos.mk (row + d.1) (col + d.2))
             <$> filter
                   (λ d : Z * Z,
                      (0 ≤ row + d.1 < Z.of_nat (length grid))
                      ∧ (0 ≤ col + d.2 < Z.of_nat (gridWidth grid))) offs))
  = length (filter (λ d, liveTarget grid row col d) offs).
Proof.
  induction offs as [|[dr dc] offs IH]; [done|].
  rewrite (filter_cons _ (dr, dc) offs).
  rewrite (filter_cons (λ d, liveTarget grid row col d) (dr, dc) offs).
  simpl fst. simpl snd.
  destruct (decide (inBounds grid (row + dr) (col + dc))) as [Hin|Hout].
  - rewrite decide_True by exact Hin. rewrite fmap_cons, filter_cons.
    assert (liveTarget grid row col (dr, dc)
            = aliveAt grid (Pos.mk (row + dr) (col + dc))) as ->.
    { unfold liveTarget, aliveAt. simpl.
      by rewrite (bool_decide_eq_true_2 _ Hin). }
    simpl fst. simpl snd.
    destruct (aliveAt grid _); simpl; by rewrite IH.
  - rewrite decide_False by exact Hout.
    assert (liveTarget grid row col (dr, dc) = false) as ->.
    { unfold liveTarget. simpl. by rewrite (bool_decide_eq_false_2 _ Hout). }
    simpl. apply IH.
Qed.

(** X5: on a rectangular grid, the neighbour count of a position inside the
    grid is the number of its neighbour positions that hold a live cell. *)
Theorem getNeighborCount_positions grid row col :
  rectangular grid → inBounds grid row col →
  getNeighborCount grid row col
  = Ret (Z.of_nat (length (filter (λ p, aliveAt grid p)
           (getNeighborPositions row col
              (Z.of_nat (length grid)) (Z.of_nat (gridWidth grid)))))).
Proof.
  intros Hrect [Hrow Hcol].
  rewrite getNeighborCount_spec; [|done| |lia].
  - unfold liveNeighbors. do 2 f_equal.
    rewrite getNeighborPositions_filter, rem2_odd by lia.
    symmetry. apply filter_positions_length.
  - intros ->. simpl in Hrow. lia.
Qed.

Lemma getNeighborCount_positions_witness :
  getNeighborCount sampleGrid 1 1 = Ret 2.
Proof.
  rewrite (getNeighborCount_positions sampleGrid 1 1).
  - reflexivity.
  - split; [reflexivity|]. repeat constructor.
  - split; vm_compute; intuition discriminate.
Defined.

(** ** More on one generation *)

Lemma setAt_Forall (Q : CellData → Prop) grid row col v grid' :
  Forall (Forall Q) grid → Q v → setAt grid row col v = Ret grid' →
  Forall (Forall Q) grid'.
Proof.
  intros Hok Hv. unfold setAt.
  destruct (idx grid row) as [r|] eqn:Hr; [|done].
  case_decide; [|done]. intros [= <-].
  apply Forall_insert; [done|]. apply Forall_insert; [|done].
  apply idx_elem_of in Hr. rewrite Forall_forall in Hok. by apply Hok.
Qed.

Lemma at_pos_Forall (Q : CellData → Prop) grid row col cell :
  Forall (Forall Q) grid → at_pos grid row col = Some cell → Q cell.
Proof.
  intros Hok (r & Hr%idx_elem_of & Hc%idx_elem_of)%at_pos_Some.
  rewrite Forall_forall in Hok.
  specialize (Hok r Hr). rewrite Forall_forall in Hok. by apply Hok.
Qed.




(** X6: whatever the grid and the rules, every live cell of the grid that
    [computeNextGeneration] returns holds positive wealth, provided the
    starting wealth is positive. *)
Theorem computeNextGeneration_solvent grid wealthRules startingWealth grid' :
  startingWealth > 0 →
  computeNextGeneration grid wealthRules startingWealth = Ret grid' →
  solvent grid'.
Proof.
  intros Hsw Hrun.
  cut (Forall (Forall (λ c, age c > 0 → wealth c > 0)) grid').
  { intros HF row col cell Hcell. by apply (at_pos_Forall _ _ _ _ _ HF Hcell). }
  revert Hrun. unfold computeNextGeneration.
  destruct (grid !! 0%nat) as [row0|]; [|done].
  cbv zeta. unfold forRange.
  pose (Q := λ c, age c > 0 → wealth c > 0). fold Q.
  apply (forOf_preserve (λ g : Grid, Forall (Forall Q) g)).
  { rewrite createEmptyGrid_replicate.
    apply Forall_replicate, Forall_replicate. unfold Q. simpl. lia. }
  intros row g1 g2 Hg1.
  apply (forOf_preserve (λ g : Grid, Forall (Forall Q) g)); [done|].
  intros col g3 g4 Hg3.
  destruct (getNeighborCount grid row col) as [n|]; [|done]. simpl.
  destruct (cellAt grid row col) as [cell|]; [|done]. simpl.
  destruct (age cell >? 0);
    match goal with |- context [?a >? 0] => destruct (Z.gtb_spec a 0) end;
    apply setAt_Forall; unfold Q; simpl; (done || lia).
Qed.

Lemma computeNextGeneration_solvent_witness :
  ∃ grid', computeNextGeneration sampleGrid sampleRules 10 = Ret grid'
    ∧ solvent grid'.
Proof.
  destruct (computeNextGeneration sampleGrid sampleRules 10)
    as [grid'|] eqn:Hrun; [|discriminate (eq_sym Hrun)].
  exists grid'. split; [reflexivity|].
  apply (computeNextGeneration_solvent sampleGrid sampleRules 10);
    [reflexivity|exact Hrun].
Defined.

(** X7: a grid without rows makes [computeNextGeneration] and
    [getNeighborCount] throw a [TypeError] (they read [grid[0].length]),
    while [resizeGrid] accepts it and returns the all-dead grid of the
    dimensions asked for. *)
Theorem empty_grid_behaviour wealthRules startingWealth row col
    (newWidth newHeight : nat) :
  computeNextGeneration [] wealthRules startingWealth = Err TypeError
  ∧ getNeighborCount [] row col = Err TypeError
  ∧ resizeGrid [] newWidth newHeight
    = Ret (createEmptyGrid newWidth newHeight).
Proof.
  split; [done|]. split; [done|].
  unfold resizeGrid. simpl. by rewrite Z.min_l by lia.
Qed.

Lemma liveNeighbors_extinct grid row col :
  extinct grid → liveNeighbors grid row col = 0.
Proof.
  intros Hdead. unfold liveNeighbors.
  destruct (filter _ _) as [|d t] eqn:Hf; [done|].
  assert (d ∈ filter (λ d, liveTarget grid row col d)
                     (getHexNeighborOffsets (Z.odd row))) as Hd
    by (rewrite Hf; set_solver).
  apply list_elem_of_filter in Hd as [Hlive _]. unfold liveTarget in Hlive.
  apply andb_prop_elim in Hlive as [_ Hlive].
  destruct (at_pos grid _ _) as [x|] eqn:Hx; [|done].
  apply bool_decide_unpack in Hlive. by destruct (Hdead _ _ _ Hx).
Qed.

(** X8: on a non-empty rectangular grid without live cells, one generation
    depends on the rule for zero neighbours alone: if that rule is positive
    every cell is born with age 1 and the starting wealth, otherwise every
    cell is the dead cell. *)
Theorem computeNextGeneration_extinct grid wealthRules startingWealth :
  rectangular grid → grid ≠ [] → extinct grid →
  ∃ grid', computeNextGeneration grid wealthRules startingWealth = Ret grid'
    ∧ dims grid' (length grid) (gridWidth grid)
    ∧ ∀ row col cell, at_pos grid' row col = Some cell →
        cell = if bool_decide (wealthChangeOf wealthRules 0 > 0)
               then {| age := 1; wealth := startingWealth |}
               else {| age := 0; wealth := 0 |}.
Proof.
  intros Hrect Hne Hdead.
  destruct (computeNextGeneration_pointwise grid wealthRules startingWealth
              Hrect Hne) as (grid' & Hrun & Hd & Hpos).
  exists grid'. split; [done|]. split; [done|].
  intros row col cell. rewrite Hpos, liveNeighbors_extinct by done.
  destruct (at_pos grid row col) as [x|] eqn:Hx; [|done].
  intros [= <-]. unfold stepCell.
  by rewrite bool_decide_eq_false_2 by (by apply (Hdead row col)).
Qed.

Lemma computeNextGeneration_extinct_witness :
  ∃ grid', computeNextGeneration (createEmptyGrid 2 2) [3] 7 = Ret grid'
    ∧ at_pos grid' 1 1 = Some {| age := 1; wealth := 7 |}.
Proof.
  destruct (computeNextGeneration_extinct (createEmptyGrid 2 2) [3] 7)
    as (grid' & Hrun & _ & Hall).
  - split; [reflexivity|]. repeat constructor.
  - discriminate.
  - intros row col cell Hcell.
    apply createEmptyGrid_at_pos in Hcell. subst cell. simpl. lia.
  - exists grid'. split; [exact Hrun|].
    destruct (at_pos grid' 1 1) as [cell|] eqn:Hcell.
    + f_equal. exact (Hall 1 1 cell Hcell).
    + vm_compute in Hrun. injection Hrun as <-. discriminate Hcell.
Defined.

(** ** More on editing one cell *)

Lemma at_pos_None_cellAt grid row col :
  at_pos grid row col = None → cellAt grid row col = Err TypeError.
Proof.
  unfold at_pos, cellAt. destruct (idx grid row) as [r|]; [|done]. simpl.
  by intros ->.
Qed.

Lemma gtb_bool_decide a : (a >? 0) = bool_decide (a > 0).
Proof. destruct (Z.gtb_spec a 0); case_bool_decide; (done || lia). Qed.

(** X9: [toggleCell] at a position outside the grid throws a [TypeError]. *)
Theorem toggleCell_outside (σ : Store) grid cells row col startingWealth :
  σ !! grid = Some cells → at_pos cells row col = None →
  toggleCell σ grid row col startingWealth = Err TypeError.
Proof.
  intros Hσ Hout. unfold toggleCell. rewrite Hσ, deepCopy_id.
  by rewrite (at_pos_None_cellAt _ _ _ Hout).
Qed.

Lemma toggleCell_outside_witness :
  toggleCell sampleStore 1 3 0 10 = Err TypeError.
Proof. apply (toggleCell_outside sampleStore 1 sampleGrid); reflexivity. Defined.

(** X10: [setCell] at a position outside the grid: asked to kill, it returns
    the reference it was given and leaves the store alone; asked to revive
    in a row that does not exist, it throws a [TypeError]. *)
Theorem setCell_outside (σ : Store) grid cells row col startingWealth :
  σ !! grid = Some cells → at_pos cells row col = None →
  setCell σ grid row col false startingWealth = Ret (grid, σ)
  ∧ (idx cells row = None →
     setCell σ grid row col true startingWealth = Err TypeError).
Proof.
  intros Hσ Hout. unfold setCell. rewrite Hσ, deepCopy_id. cbv zeta.
  unfold at_pos in Hout. destruct (idx cells row) as [r|] eqn:Hr.
  - simpl in Hout. rewrite Hout. by rewrite decide_True by done.
  - rewrite decide_True by done. split; [done|]. intros _.
    rewrite decide_False by done. unfold setAt. by rewrite Hr.
Qed.

Lemma setCell_outside_witness :
  setCell sampleStore 1 3 0 false 10 = Ret (1%positive, sampleStore)
  ∧ setCell sampleStore 1 3 0 true 10 = Err TypeError.
Proof.
  destruct (setCell_outside sampleStore 1 sampleGrid 3 0 10) as [Hkill Hlive];
    [reflexivity..|].
  split; [exact Hkill|]. apply Hlive. reflexivity.
Defined.

Lemma setCell_changed (σ : Store) grid cells row col value startingWealth cell :
  σ !! grid = Some cells → at_pos cells row col = Some cell →
  bool_decide (age cell > 0) ≠ value →
  ∃ cells',
    setAt cells row col
      (if value then createAliveCell startingWealth else createEmptyCell)
      = Ret cells'
    ∧ setCell σ grid row col value startingWealth = Ret (alloc σ cells').
Proof.
  intros Hσ Hcell Hne.
  destruct (setAt_at_pos cells row col
              (if value then createAliveCell startingWealth
               else createEmptyCell) cell Hcell) as (cells' & Hset & _).
  exists cells'. split; [done|]. unfold setCell. rewrite Hσ.
  pose proof Hcell as (rw & Hrw & Hc)%at_pos_Some. rewrite Hrw, Hc.
  rewrite gtb_bool_decide, decide_False by done.
  by rewrite deepCopy_id, Hset.
Qed.



(** X12: setting a cell to the same value a second time changes nothing:
    the second call returns the reference and the store of the first. *)
Theorem setCell_twice (σ : Store) grid cells row col value startingWealth
    cell grid' σ' :
  σ !! grid = Some cells → at_pos cells row col = Some cell →
  setCell σ grid row col value startingWealth = Ret (grid', σ') →
  setCell σ' grid' row col value startingWealth = Ret (grid', σ').
Proof.
  intros Hσ Hcell Hrun.
  destruct (decide (bool_decide (age cell > 0) = value)) as [Heq|Hne].
  - assert (setCell σ grid row col value startingWealth = Ret (grid, σ)) as Hsame.
    { unfold setCell. rewrite Hσ.
      pose proof Hcell as (rw & Hrw & Hc)%at_pos_Some. rewrite Hrw, Hc.
      by rewrite gtb_bool_decide, decide_True. }
    rewrite Hsame in Hrun. by injection Hrun as <- <-.
  - destruct (setCell_changed σ grid cells row col value startingWealth cell
                Hσ Hcell Hne) as (cells' & Hset & Hrun').
    rewrite Hrun' in Hrun.
    assert (alloc σ cells' = (grid', σ')) as Hal by congruence.
    apply alloc_spec in Hal as (_ & Hnew & _).
    destruct (setAt_at_pos cells row col
                (if value then createAliveCell startingWealth
                 else createEmptyCell) cell Hcell) as (cells2 & Hset2 & Hpos).
    rewrite Hset in Hset2. injection Hset2 as <-.
    specialize (Hpos row col). rewrite decide_True in Hpos by done.
    unfold setCell. rewrite Hnew.
    apply at_pos_Some in Hpos as (rw & -> & ->).
    rewrite decide_True; [done|]. by destruct value.
Qed.

Lemma setCell_twice_witness :
  ∃ grid' σ', setCell sampleStore 1 1 1 true 10 = Ret (grid', σ')
    ∧ grid' ≠ 1%positive
    ∧ setCell σ' grid' 1 1 true 10 = Ret (grid', σ').
Proof.
  destruct (setCell sampleStore 1 1 1 true 10) as [[grid' σ']|] eqn:Hrun;
    [|vm_compute in Hrun; discriminate Hrun].
  exists grid', σ'. split; [reflexivity|]. split.
  - vm_compute in Hrun. injection Hrun as <- _. discriminate.
  - apply (setCell_twice sampleStore 1 sampleGrid 1 1 true 10 createEmptyCell);
      [reflexivity|reflexivity|exact Hrun].
Defined.

(** X13: toggling the same position twice gives a third grid object in which
    a cell that was dead is the dead cell again and a cell that was alive is
    a newborn with the starting wealth (its age and wealth are not
    restored); every other position is as in the first grid. *)
Theorem toggleCell_twice (σ : Store) grid cells row col startingWealth cell :
  σ !! grid = Some cells → at_pos cells row col = Some cell →
  ∃ grid1 σ1 grid2 σ2 cells2,
    toggleCell σ grid row col startingWealth = Ret (grid1, σ1)
    ∧ toggleCell σ1 grid1 row col startingWealth = Ret (grid2, σ2)
    ∧ grid1 ≠ grid ∧ grid2 ≠ grid ∧ grid2 ≠ grid1
    ∧ σ2 !! grid = Some cells
    ∧ σ2 !! grid2 = Some cells2
    ∧ at_pos cells2 row col
      = Some (if bool_decide (age cell > 0)
              then {| age := 1; wealth := startingWealth |}
              else {| age := 0; wealth := 0 |})
    ∧ ∀ r c, (r, c) ≠ (row, col) → at_pos cells2 r c = at_pos cells r c.
Proof.
  intros Hσ Hcell.
  assert (∀ (σ : Store) grid cells cell,
            σ !! grid = Some cells → at_pos cells row col = Some cell →
            ∃ grid' σ' cells',
              toggleCell σ grid row col startingWealth = Ret (grid', σ')
              ∧ σ !! grid' = None ∧ σ' !! grid' = Some cells'
              ∧ (∀ l, l ≠ grid' → σ' !! l = σ !! l)
              ∧ ∀ r c, at_pos cells' r c =
                  if decide (r = row ∧ c = col)
                  then Some (if bool_decide (age cell > 0) then createEmptyCell
                             else createAliveCell startingWealth)
                  else at_pos cells r c) as Htoggle.
  { clear. intros σ grid cells cell Hσ Hcell.
    unfold toggleCell. rewrite Hσ, deepCopy_id.
    rewrite (at_pos_cellAt _ _ _ _ Hcell). simpl. rewrite gtb_bool_decide.
    destruct (setAt_at_pos cells row col
                (if bool_decide (age cell > 0) then createEmptyCell
                 else createAliveCell startingWealth) cell Hcell)
      as (cells' & Hset & Hpos).
    assert ((if bool_decide (age cell > 0)
             then setAt cells row col createEmptyCell
             else setAt cells row col (createAliveCell startingWealth))
            = Ret cells') as -> by (by destruct (bool_decide _)).
    simpl. destruct (alloc σ cells') as [l σ'] eqn:Hal.
    apply alloc_spec in Hal as (Hfresh & Hnew & Hold).
    by exists l, σ', cells'. }
  destruct (Htoggle σ grid cells cell Hσ Hcell)
    as (grid1 & σ1 & cells1 & Hrun1 & Hfresh1 & Hnew1 & Hold1 & Hpos1).
  pose proof (Hpos1 row col) as Hcell1. rewrite decide_True in Hcell1 by done.
  destruct (Htoggle σ1 grid1 cells1 _ Hnew1 Hcell1)
    as (grid2 & σ2 & cells2 & Hrun2 & Hfresh2 & Hnew2 & Hold2 & Hpos2).
  assert (grid1 ≠ grid) by congruence.
  assert (grid2 ≠ grid1) by congruence.
  assert (grid2 ≠ grid).
  { intros ->. rewrite Hold1 in Hfresh2 by done. congruence. }
  exists grid1, σ1, grid2, σ2, cells2.
  repeat (split; [done|]).
  split; [by rewrite Hold2, Hold1|]. split; [done|]. split.
  - rewrite Hpos2, decide_True by done. f_equal.
    by destruct (bool_decide (age cell > 0)).
  - intros r c Hrc.
    rewrite Hpos2, decide_False, Hpos1, decide_False; (done || naive_solver).
Qed.

Lemma toggleCell_twice_witness :
  ∃ grid1 σ1 grid2 σ2 cells2,
    toggleCell sampleStore 1 1 0 10 = Ret (grid1, σ1)
    ∧ toggleCell σ1 grid1 1 0 10 = Ret (grid2, σ2)
    ∧ σ2 !! grid2 = Some cells2
    ∧ at_pos cells2 1 0 = Some {| age := 1; wealth := 10 |}.
Proof.
  destruct (toggleCell_twice sampleStore 1 sampleGrid 1 0 10
              {| age := 5; wealth := 3 |})
    as (grid1 & σ1 & grid2 & σ2 & cells2
        & Hrun1 & Hrun2 & _ & _ & _ & _ & Hcells2 & Hat & _);
    [reflexivity..|].
  exists grid1, σ1, grid2, σ2, cells2.
  split; [exact Hrun1|]. split; [exact Hrun2|]. split; [exact Hcells2|].
  exact Hat.
Defined.

(** ** More on resizing *)

Lemma at_pos_of_nat (grid : Grid) (i j : nat) :
  at_pos grid (Z.of_nat i) (Z.of_nat j) = r ← grid !! i; r !! j.
Proof.
  unfold at_pos. rewrite idx_of_nat. destruct (grid !! i) as [r|]; [|done].
  simpl. apply idx_of_nat.
Qed.

Lemma grid_ext (g1 g2 : Grid) h w :
  dims g1 h w → dims g2 h w →
  (∀ r c, 0 ≤ r < Z.of_nat h → 0 ≤ c < Z.of_nat w →
     at_pos g1 r c = at_pos g2 r c) →
  g1 = g2.
Proof.
  intros [Hh1 Hw1] [Hh2 Hw2] Hpos. apply list_eq. intros i.
  destruct (decide (i < h)%nat) as [Hi|Hi]; cycle 1.
  { rewrite !lookup_ge_None_2; (done || lia). }
  destruct (lookup_lt_is_Some_2 g1 i) as [r1 Hr1]; [lia|].
  destruct (lookup_lt_is_Some_2 g2 i) as [r2 Hr2]; [lia|].
  rewrite Hr1, Hr2. f_equal.
  pose proof (Forall_lookup_1 _ _ _ _ Hw1 Hr1) as Hl1.
  pose proof (Forall_lookup_1 _ _ _ _ Hw2 Hr2) as Hl2. simpl in *.
  apply list_eq. intros j.
  destruct (decide (j < w)%nat) as [Hj|Hj]; cycle 1.
  { rewrite !lookup_ge_None_2; (done || lia). }
  specialize (Hpos (Z.of_nat i) (Z.of_nat j)).
  rewrite !at_pos_of_nat, Hr1, Hr2 in Hpos. simpl in Hpos. apply Hpos; lia.
Qed.

Lemma createEmptyGrid_at_pos_in width height row col :
  0 ≤ row < Z.of_nat height → 0 ≤ col < Z.of_nat width →
  at_pos (createEmptyGrid width height) row col = Some createEmptyCell.
Proof.
  intros Hrow Hcol.
  destruct (proj2 (at_pos_dims _ _ _ row col
                     (createEmptyGrid_dims width height)))
    as [cell Hcell]; [done|].
  rewrite Hcell. by rewrite (createEmptyGrid_at_pos _ _ _ _ _ Hcell).
Qed.

Lemma resizeGrid_pointwise grid newWidth newHeight :
  rectangular grid →
  ∃ grid', resizeGrid grid newWidth newHeight = Ret grid'
    ∧ dims grid' newHeight newWidth
    ∧ ∀ row col,
        0 ≤ row < Z.of_nat newHeight → 0 ≤ col < Z.of_nat newWidth →
        at_pos grid' row col =
          if decide (row < Z.of_nat (length grid)
                     ∧ col < Z.of_nat (gridWidth grid))
          then at_pos grid row col
          else Some createEmptyCell.
Proof.
  intros Hrect. unfold resizeGrid. fold (gridWidth grid). cbv zeta.
  pose (F := λ r c, default createEmptyCell (at_pos grid r c)).
  match goal with
  | |- ∃ x, forRange ?H (λ row g, forRange ?W (@?b row) g) ?g0 = _ ∧ _ =>
      destruct (fill_loops F (λ r c g, b r c g) H W newHeight newWidth g0)
        as (g' & Hr & Hd & Hpos)
  end; [lia|lia|apply createEmptyGrid_dims| |].
  - intros r c g Hr Hc. cbv beta.
    destruct (proj2 (rectangular_at_pos grid r c Hrect)) as [cell Hcell];
      [split; lia|].
    unfold F. rewrite Hcell. simpl.
    apply at_pos_Some in Hcell as (rw & -> & ->). by rewrite spread_id.
  - exists g'. split; [exact Hr|]. split; [done|].
    intros row col Hrow Hcol. rewrite Hpos.
    destruct (decide (row < Z.of_nat (length grid)
                      ∧ col < Z.of_nat (gridWidth grid))) as [Hin|Hout].
    + rewrite decide_True by lia.
      destruct (proj2 (rectangular_at_pos grid row col Hrect)) as [cell Hcell];
        [split; lia|].
      unfold F. by rewrite Hcell.
    + rewrite decide_False by lia. by apply createEmptyGrid_at_pos_in.
Qed.

Lemma resizeGrid_same grid :
  rectangular grid →
  resizeGrid grid (gridWidth grid) (length grid) = Ret grid.
Proof.
  intros Hrect.
  destruct (resizeGrid_pointwise grid (gridWidth grid) (length grid) Hrect)
    as (g' & -> & Hd & Hpos).
  f_equal. apply (grid_ext _ _ _ _ Hd Hrect).
  intros r c Hr Hc. rewrite Hpos by done. by rewrite decide_True by lia.
Qed.

Lemma dims_rect grid h w : dims grid h w → rectangular grid.
Proof.
  intros Hd. destruct (decide (grid = [])) as [->|Hne].
  - split; [done|]. constructor.
  - by apply (dims_rectangular grid h w).
Qed.

Lemma resizeGrid_through grid (w1 h1 w2 h2 : nat) :
  rectangular grid → (w2 ≤ w1)%nat → (h2 ≤ h1)%nat →
  ∃ grid1, resizeGrid grid w1 h1 = Ret grid1
    ∧ resizeGrid grid1 w2 h2 = resizeGrid grid w2 h2.
Proof.
  intros Hrect Hw Hh.
  destruct (resizeGrid_pointwise grid w1 h1 Hrect) as (g1 & Hr1 & Hd1 & Hp1).
  exists g1. split; [done|].
  destruct (resizeGrid_pointwise g1 w2 h2 (dims_rect _ _ _ Hd1))
    as (g2 & -> & Hd2 & Hp2).
  destruct (resizeGrid_pointwise grid w2 h2 Hrect) as (g3 & -> & Hd3 & Hp3).
  f_equal. apply (grid_ext _ _ _ _ Hd2 Hd3). intros r c Hr Hc.
  rewrite Hp2, Hp3 by done.
  assert (g1 ≠ []) as Hne1.
  { destruct Hd1 as [Hlen _]. intros ->. simpl in Hlen. lia. }
  destruct (dims_rectangular _ _ _ Hd1 Hne1) as [_ Hgw1].
  destruct Hd1 as [Hlen1 _]. rewrite Hlen1, Hgw1.
  rewrite decide_True by lia. apply Hp1; lia.
Qed.

(** X14: resizing a rectangular grid to the dimensions it already has
    returns a grid with the same contents. *)
Theorem resizeGrid_identity grid :
  rectangular grid →
  resizeGrid grid (gridWidth grid) (length grid) = Ret grid.
Proof. apply resizeGrid_same. Qed.

Lemma resizeGrid_identity_witness : resizeGrid sampleGrid 3 3 = Ret sampleGrid.
Proof.
  apply (resizeGrid_identity sampleGrid).
  split; [reflexivity|]. repeat constructor.
Defined.

(** X15: resizing in two steps through dimensions at least as large as the
    final ones gives the same grid as resizing once: nothing of the final
    rectangle is lost on the way. *)
Theorem resizeGrid_compose grid (w1 h1 w2 h2 : nat) :
  rectangular grid → (w2 ≤ w1)%nat → (h2 ≤ h1)%nat →
  ∃ grid1, resizeGrid grid w1 h1 = Ret grid1
    ∧ resizeGrid grid1 w2 h2 = resizeGrid grid w2 h2.
Proof. apply resizeGrid_through. Qed.

Lemma resizeGrid_compose_witness :
  ∃ grid1, resizeGrid sampleGrid 4 3 = Ret grid1
    ∧ resizeGrid grid1 2 2 = resizeGrid sampleGrid 2 2.
Proof.
  apply (resizeGrid_compose sampleGrid 4 3 2 2); [|lia|lia].
  split; [reflexivity|]. repeat constructor.
Defined.

(** X16: growing a rectangular grid and shrinking it back to its first
    dimensions restores it exactly. *)
Theorem resizeGrid_round_trip grid (newWidth newHeight : nat) :
  rectangular grid →
  (gridWidth grid ≤ newWidth)%nat → (length grid ≤ newHeight)%nat →
  ∃ grid1, resizeGrid grid newWidth newHeight = Ret grid1
    ∧ resizeGrid grid1 (gridWidth grid) (length grid) = Ret grid.
Proof.
  intros Hrect Hw Hh.
  destruct (resizeGrid_through grid newWidth newHeight
              (gridWidth grid) (length grid) Hrect Hw Hh) as (g1 & Hr1 & Hr2).
  exists g1. split; [done|]. by rewrite Hr2, resizeGrid_same.
Qed.

Lemma resizeGrid_round_trip_witness :
  ∃ grid1, resizeGrid sampleGrid 10 10 = Ret grid1
    ∧ resizeGrid grid1 3 3 = Ret sampleGrid.
Proof.
  apply (resizeGrid_round_trip sampleGrid 10 10).
  - split; [reflexivity|]. repeat constructor.
  - vm_compute. lia.
  - vm_compute. lia.
Defined.

(** X17: a shrunken grid forgets what lay outside it: after shrinking a
    rectangular grid and growing it back to the first dimensions, the
    positions of the smaller rectangle hold their cells and every other
    position holds the dead cell. *)
Theorem resizeGrid_shrink_grow grid (newWidth newHeight : nat) :
  rectangular grid →
  (newWidth ≤ gridWidth grid)%nat → (newHeight ≤ length grid)%nat →
  ∃ grid1 grid2,
    resizeGrid grid newWidth newHeight = Ret grid1
    ∧ resizeGrid grid1 (gridWidth grid) (length grid) = Ret grid2
    ∧ dims grid2 (length grid) (gridWidth grid)
    ∧ ∀ row col cell, at_pos grid row col = Some cell →
        at_pos grid2 row col =
          Some (if decide (row < Z.of_nat newHeight ∧ col < Z.of_nat newWidth)
                then cell else {| age := 0; wealth := 0 |}).
Proof.
  intros Hrect Hw Hh.
  destruct (resizeGrid_pointwise grid newWidth newHeight Hrect)
    as (g1 & Hr1 & Hd1 & Hp1).
  destruct (resizeGrid_pointwise g1 (gridWidth grid) (length grid)
              (dims_rect _ _ _ Hd1)) as (g2 & Hr2 & Hd2 & Hp2).
  exists g1, g2. repeat (split; [done|]).
  intros row col cell Hcell.
  assert (inBounds grid row col) as [Hrow Hcol]
    by (apply rectangular_at_pos; eauto).
  rewrite Hp2 by done.
  destruct (decide (row < Z.of_nat newHeight ∧ col < Z.of_nat newWidth))
    as [[Hin1 Hin2]|Hout].
  - assert (g1 ≠ []) as Hne1.
    { destruct Hd1 as [Hlen _]. intros ->. simpl in Hlen. lia. }
    destruct (dims_rectangular _ _ _ Hd1 Hne1) as [_ Hgw1].
    destruct Hd1 as [Hlen1 _]. rewrite Hlen1, Hgw1.
    rewrite decide_True by lia. rewrite Hp1 by lia.
    by rewrite decide_True by lia.
  - case_decide as Hin; [|done].
    assert (g1 ≠ []) as Hne1.
    { intros ->. simpl in Hin. lia. }
    destruct (dims_rectangular _ _ _ Hd1 Hne1) as [_ Hgw1].
    destruct Hd1 as [Hlen1 _]. rewrite Hlen1, Hgw1 in Hin. lia.
Qed.

Lemma resizeGrid_shrink_grow_witness :
  ∃ grid1 grid2,
    resizeGrid sampleGrid 1 3 = Ret grid1
    ∧ resizeGrid grid1 3 3 = Ret grid2
    ∧ at_pos grid2 0 1 = Some {| age := 0; wealth := 0 |}
    ∧ at_pos grid2 1 0 = Some {| age := 5; wealth := 3 |}.
Proof.
  destruct (resizeGrid_shrink_grow sampleGrid 1 3)
    as (grid1 & grid2 & Hr1 & Hr2 & _ & Hpos).
  - split; [reflexivity|]. repeat constructor.
  - vm_compute. lia.
  - vm_compute. lia.
  - exists grid1, grid2. split; [exact Hr1|]. split; [exact Hr2|]. split.
    + apply (Hpos 0 1 (createAliveCell 10)). reflexivity.
    + apply (Hpos 1 0 {| age := 5; wealth := 3 |}). reflexivity.
Defined.

(** ** The state holder *)

Lemma elem_at_pos (grid : Grid) r cell :
  r ∈ grid → cell ∈ r → ∃ row col, at_pos grid row col = Some cell.
Proof.
  intros [i Hi]%list_elem_of_lookup_1 [j Hj]%list_elem_of_lookup_1.
  exists (Z.of_nat i), (Z.of_nat j). by rewrite at_pos_of_nat, Hi.
Qed.

Lemma at_pos_elem (grid : Grid) row col cell :
  at_pos grid row col = Some cell → ∃ r, r ∈ grid ∧ cell ∈ r.
Proof.
  intros (r & Hr%idx_elem_of & Hc%idx_elem_of)%at_pos_Some. eauto.
Qed.

Lemma hasAliveCells_true grid :
  Hook.hasAliveCells grid = true ↔
  ∃ row col cell, at_pos grid row col = Some cell ∧ age cell > 0.
Proof.
  unfold Hook.hasAliveCells. rewrite existsb_exists. split.
  - intros (r & Hr & (cell & Hc & Hage)%existsb_exists).
    apply list_elem_of_In in Hr, Hc.
    destruct (elem_at_pos grid r cell Hr Hc) as (row & col & Hat).
    exists row, col, cell. split; [done|]. rewrite gtb_bool_decide in Hage.
    by apply bool_decide_eq_true_1 in Hage.
  - intros (row & col & cell & (r & Hr & Hc)%at_pos_elem & Hage).
    exists r. split; [by apply list_elem_of_In|].
    apply existsb_exists. exists cell. split; [by apply list_elem_of_In|].
    rewrite gtb_bool_decide. by apply bool_decide_eq_true_2.
Qed.

Lemma hasAliveCells_false grid :
  Hook.hasAliveCells grid = false ↔ extinct grid.
Proof.
  rewrite <- not_true_iff_false, hasAliveCells_true. unfold extinct.
  naive_solver.
Qed.

(** X18: on a non-empty rectangular grid the hook's [step] succeeds; it
    advances the generation counter by one, puts the next generation in the
    state without touching width, height, rules or speed, and sets the
    simulation to stopped exactly when the new grid has no live cell,
    leaving the simulation state alone otherwise. *)
Theorem step_auto_stop (st : Hook.State) :
  rectangular (Hook.cells (Hook.gridState st)) →
  Hook.cells (Hook.gridState st) ≠ [] →
  ∃ st', Hook.step st = Ret st'
    ∧ computeNextGeneration (Hook.cells (Hook.gridState st))
        (Hook.wealthRules st) 10
      = Ret (Hook.cells (Hook.gridState st'))
    ∧ Hook.generation st' = Hook.generation st + 1
    ∧ Hook.width (Hook.gridState st') = Hook.width (Hook.gridState st)
    ∧ Hook.height (Hook.gridState st') = Hook.height (Hook.gridState st)
    ∧ Hook.wealthRules st' = Hook.wealthRules st
    ∧ Hook.speed st' = Hook.speed st
    ∧ (extinct (Hook.cells (Hook.gridState st')) →
         Hook.simulationState st' = Hook.stopped)
    ∧ (¬ extinct (Hook.cells (Hook.gridState st')) →
         Hook.simulationState st' = Hook.simulationState st).
Proof.
  intros Hrect Hne.
  destruct (computeNextGeneration_pointwise _ (Hook.wealthRules st) 10
              Hrect Hne) as (newCells & Hrun & _).
  unfold Hook.step, DEFAULT_STARTING_WEALTH. cbv zeta. rewrite Hrun. simpl.
  eexists. split; [done|]. simpl. repeat (split; [done|]).
  destruct (Hook.hasAliveCells newCells) eqn:Halive; simpl.
  - split; [|done]. intros Hex%hasAliveCells_false. congruence.
  - split; [done|]. intros Hex. by apply hasAliveCells_false in Halive.
Qed.

Lemma step_auto_stop_witness :
  ∃ st', Hook.step
           {| Hook.gridState :=
                {| Hook.cells := createEmptyGrid 2 2;
                   Hook.width := 2; Hook.height := 2 |};
              Hook.wealthRules := defaultWealthRules;
              Hook.simulationState := Hook.playing;
              Hook.speed := 200; Hook.generation := 0 |} = Ret st'
    ∧ Hook.generation st' = 1
    ∧ Hook.simulationState st' = Hook.stopped.
Proof.
  destruct (step_auto_stop
              {| Hook.gridState :=
                   {| Hook.cells := createEmptyGrid 2 2;
                      Hook.width := 2; Hook.height := 2 |};
                 Hook.wealthRules := defaultWealthRules;
                 Hook.simulationState := Hook.playing;
                 Hook.speed := 200; Hook.generation := 0 |})
    as (st' & Hrun & Hcells & Hgen & _ & _ & _ & _ & Hstop & _).
  - split; [reflexivity|]. repeat constructor.
  - discriminate.
  - exists st'. split; [exact Hrun|]. split; [exact Hgen|].
    apply Hstop. apply hasAliveCells_false.
    assert (Ret (Hook.cells (Hook.gridState st')) = Ret (createEmptyGrid 2 2))
      as [= ->] by (rewrite <- Hcells; reflexivity).
    reflexivity.
Defined.

Lemma steps_snoc k st :
  Hook.steps (S k) st = st' ← Hook.steps k st; Hook.step st'.
Proof.
  revert st. induction k as [|k IH]; intros st.
  - simpl. by destruct (Hook.step st).
  - change (Hook.steps (S (S k)) st)
      with (st' ← Hook.step st; Hook.steps (S k) st').
    simpl Hook.steps at 2.
    destruct (Hook.step st) as [st1|e]; [|done]. apply IH.
Qed.

Lemma hook_step_isolated (st : Hook.State) row col a w :
  onlyAlive (Hook.cells (Hook.gridState st)) row col
    {| age := a; wealth := w |} →
  Hook.wealthRules st = defaultWealthRules →
  a > 0 →
  ∃ st', Hook.step st = Ret st'
    ∧ Hook.wealthRules st' = defaultWealthRules
    ∧ Hook.generation st' = Hook.generation st + 1
    ∧ ((w - 1 > 0 →
          onlyAlive (Hook.cells (Hook.gridState st')) row col
            {| age := a + 1; wealth := w - 1 |}
          ∧ Hook.simulationState st' = Hook.simulationState st)
       ∧ (w - 1 ≤ 0 →
          extinct (Hook.cells (Hook.gridState st'))
          ∧ Hook.simulationState st' = Hook.stopped)).
Proof.
  intros Hone Hrules Ha.
  destruct (step_isolated _ _ _ _ Hone 10) as (g1 & Hrun & Hone1).
  simpl in Hone1. rewrite bool_decide_eq_true_2 in Hone1 by lia.
  unfold Hook.step, DEFAULT_STARTING_WEALTH. cbv zeta.
  rewrite Hrules, Hrun. simpl. eexists. split; [done|]. simpl.
  split; [done|]. split; [done|]. split.
  - intros Hw. rewrite bool_decide_eq_true_2 in Hone1 by lia.
    split; [done|].
    assert (Hook.hasAliveCells g1 = true) as ->; [|done].
    apply hasAliveCells_true. destruct Hone1 as (_ & Hcell & _).
    exists row, col. eexists. split; [done|]. simpl. lia.
  - intros Hw. rewrite bool_decide_eq_false_2 in Hone1 by lia.
    assert (extinct g1) as Hex.
    { destruct Hone1 as (_ & Hc & Hdead). intros r c x Hx.
      destruct (decide ((r, c) = (row, col))) as [[= -> ->]|Hne].
      - rewrite Hc in Hx. injection Hx as <-. simpl. lia.
      - by apply (Hdead r c). }
    split; [done|]. apply hasAliveCells_false in Hex. by rewrite Hex.
Qed.

Lemma hook_steps_alive k (st : Hook.State) row col a w :
  onlyAlive (Hook.cells (Hook.gridState st)) row col
    {| age := a; wealth := w |} →
  Hook.wealthRules st = defaultWealthRules →
  a > 0 → Z.of_nat k < w →
  ∃ st', Hook.steps k st = Ret st'
    ∧ Hook.wealthRules st' = defaultWealthRules
    ∧ Hook.generation st' = Hook.generation st + Z.of_nat k
    ∧ Hook.simulationState st' = Hook.simulationState st
    ∧ onlyAlive (Hook.cells (Hook.gridState st')) row col
        {| age := a + Z.of_nat k; wealth := w - Z.of_nat k |}.
Proof.
  revert st a w. induction k as [|k IH]; intros st a w Hone Hrules Ha Hw.
  - exists st. split; [done|]. split; [done|]. split; [lia|]. split; [done|].
    simpl. by rewrite Z.add_0_r, Z.sub_0_r.
  - destruct (hook_step_isolated st row col a w Hone Hrules Ha)
      as (st1 & Hrun & Hrules1 & Hgen1 & Halive & _).
    destruct Halive as [Hone1 Hsim1]; [lia|].
    destruct (IH st1 (a + 1) (w - 1) Hone1 Hrules1)
      as (st2 & Hrun2 & Hrules2 & Hgen2 & Hsim2 & Hone2); [lia..|].
    exists st2. simpl Hook.steps. rewrite Hrun. split; [done|].
    split; [done|]. split; [lia|]. split; [congruence|].
    by replace (a + Z.of_nat (S k)) with (a + 1 + Z.of_nat k) by lia;
       replace (w - Z.of_nat (S k)) with (w - 1 - Z.of_nat k) by lia.
Qed.

(** X19: the driver's view of the extinction of an isolated cell.  From a
    state whose grid has one live cell [{age: 1, wealth: 10}] and whose rules
    are the default ones, each of the first nine calls of [step] keeps the
    simulation state it found and counts one generation; the tenth call
    leaves no live cell and sets the simulation to stopped. *)
Theorem steps_until_extinct (st : Hook.State) row col :
  onlyAlive (Hook.cells (Hook.gridState st)) row col
    {| age := 1; wealth := 10 |} →
  Hook.wealthRules st = defaultWealthRules →
  (∀ k : nat, (k ≤ 9)%nat →
     ∃ st', Hook.steps k st = Ret st'
       ∧ Hook.simulationState st' = Hook.simulationState st
       ∧ Hook.generation st' = Hook.generation st + Z.of_nat k
       ∧ ¬ extinct (Hook.cells (Hook.gridState st')))
  ∧ ∃ st', Hook.steps 10 st = Ret st'
      ∧ Hook.simulationState st' = Hook.stopped
      ∧ Hook.generation st' = Hook.generation st + 10
      ∧ extinct (Hook.cells (Hook.gridState st')).
Proof.
  intros Hone Hrules. split.
  - intros k Hk.
    destruct (hook_steps_alive k st row col 1 10 Hone Hrules)
      as (st' & Hrun & _ & Hgen & Hsim & Hone'); [lia..|].
    exists st'. repeat (split; [done|]).
    intros Hex. destruct Hone' as (_ & Hcell & _).
    apply (Hex _ _ _ Hcell). simpl. lia.
  - destruct (hook_steps_alive 9 st row col 1 10 Hone Hrules)
      as (st9 & Hrun9 & Hrules9 & Hgen9 & _ & Hone9); [lia..|].
    destruct (hook_step_isolated st9 row col _ _ Hone9 Hrules9)
      as (st10 & Hrun10 & _ & Hgen10 & _ & Hdead); [lia|].
    destruct Hdead as [Hex Hstop]; [lia|].
    exists st10. rewrite steps_snoc, Hrun9. split; [exact Hrun10|].
    split; [done|]. split; [lia|done].
Qed.

Lemma steps_until_extinct_witness :
  ∃ st', Hook.steps 10
           {| Hook.gridState :=
                {| Hook.cells := isolatedGrid;
                   Hook.width := 3; Hook.height := 3 |};
              Hook.wealthRules := defaultWealthRules;
              Hook.simulationState := Hook.playing;
              Hook.speed := 200; Hook.generation := 0 |} = Ret st'
    ∧ Hook.simulationState st' = Hook.stopped
    ∧ Hook.generation st' = 10.
Proof.
  destruct (steps_until_extinct
              {| Hook.gridState :=
                   {| Hook.cells := isolatedGrid;
                      Hook.width := 3; Hook.height := 3 |};
                 Hook.wealthRules := defaultWealthRules;
                 Hook.simulationState := Hook.playing;
                 Hook.speed := 200; Hook.generation := 0 |} 1 1)
    as (_ & st' & Hrun & Hstop & Hgen & _).
  - exact isolatedGrid_onlyAlive.
  - reflexivity.
  - exists st'. split; [exact Hrun|]. split; [exact Hstop|exact Hgen].
Defined.




Lemma at_pos_fmap (f : CellData → CellData) (grid : Grid) row col :
  at_pos ((λ r : list CellData, f <$> r) <$> grid) row col
  = f <$> at_pos grid row col.
Proof.
  assert (∀ {A B} (g : A → B) (l : list A) i, idx (g <$> l) i = g <$> idx l i)
    as Hidx.
  { intros A B g l i. unfold idx. case_decide; [|done].
    apply list_lookup_fmap. }
  unfold at_pos. rewrite Hidx. destruct (idx grid row) as [r|]; [|done].
  simpl. apply Hidx.
Qed.

(** X21: [resetWealth] gives every live cell wealth 1 and changes nothing
    else: ages and dead cells stay as they are.  Doing it twice is doing it
    once, and the cell invariant survives it. *)
Theorem resetWealth_effect (st : Hook.State) :
  (∀ row col,
     at_pos (Hook.cells (Hook.gridState (Hook.resetWealth st))) row col
     = (λ cell, if bool_decide (age cell > 0)
                then {| age := age cell; wealth := 1 |} else cell)
       <$> at_pos (Hook.cells (Hook.gridState st)) row col)
  ∧ Hook.resetWealth (Hook.resetWealth st) = Hook.resetWealth st
  ∧ (grid_ok (Hook.cells (Hook.gridState st)) →
     grid_ok (Hook.cells (Hook.gridState (Hook.resetWealth st)))).
Proof.
  split; [|split].
  - intros row col. unfold Hook.resetWealth. simpl. rewrite at_pos_fmap.
    destruct (at_pos _ row col) as [cell|]; [|done]. simpl.
    by rewrite gtb_bool_decide.
  - unfold Hook.resetWealth. simpl. do 2 f_equal.
    rewrite <- list_fmap_compose. apply list_fmap_ext. intros _ r _. simpl.
    rewrite <- list_fmap_compose. apply list_fmap_ext. intros _ c _. simpl.
    by destruct (age c >? 0) eqn:Hc; simpl; rewrite Hc.
  - unfold Hook.resetWealth, grid_ok. simpl. intros Hok.
    apply Forall_fmap. eapply Forall_impl; [exact Hok|].
    intros r Hr. simpl. apply Forall_fmap. eapply Forall_impl; [exact Hr|].
    intros c [Hc1 Hc2]. simpl.
    destruct (Z.gtb_spec (age c) 0); [|done]. split; simpl; lia.
Qed.

Lemma resetWealth_effect_witness :
  grid_ok (Hook.cells (Hook.gridState (Hook.resetWealth
    {| Hook.gridState :=
         {| Hook.cells := sampleGrid; Hook.width := 3; Hook.height := 3 |};
       Hook.wealthRules := sampleRules;
       Hook.simulationState := Hook.paused;
       Hook.speed := 200; Hook.generation := 4 |}))).
Proof.
  apply (resetWealth_effect
           {| Hook.gridState :=
                {| Hook.cells := sampleGrid;
                   Hook.width := 3; Hook.height := 3 |};
              Hook.wealthRules := sampleRules;
              Hook.simulationState := Hook.paused;
              Hook.speed := 200; Hook.generation := 4 |}).
  exact sampleGrid_ok.
Defined.

(** ** The figures shown under the grid *)

Lemma existsb_concat {A} (f : A → bool) (ls : list (list A)) :
  existsb (existsb f) ls = existsb f (concat ls).
Proof.
  induction ls as [|l ls IH]; [done|]. simpl.
  by rewrite existsb_app, IH.
Qed.

Lemma filter_length_existsb {A} (f : A → bool) (l : list A) :
  length (List.filter f l) = 0%nat ↔ existsb f l = false.
Proof.
  induction l as [|x l IH]; [done|]. simpl.
  destruct (f x); simpl; [done|exact IH].
Qed.

Lemma aliveCells_at_pos grid cell :
  In cell (Metrics.aliveCells grid) →
  age cell > 0 ∧ ∃ row col, at_pos grid row col = Some cell.
Proof.
  unfold Metrics.aliveCells. intros [Hin Hage]%filter_In.
  rewrite gtb_bool_decide in Hage. apply bool_decide_eq_true_1 in Hage.
  split; [done|].
  apply in_concat in Hin as (r & Hr & Hc).
  apply (elem_at_pos grid r); by apply list_elem_of_In.
Qed.

Lemma fold_wealth_ge (l : list CellData) acc :
  (∀ c, In c l → 1 ≤ wealth c) →
  acc + Z.of_nat (length l) ≤ fold_left (λ sum c, sum + wealth c) l acc.
Proof.
  revert acc. induction l as [|x l IH]; intros acc Hall; simpl; [lia|].
  etrans; [|apply IH; intros c Hc; apply Hall; by right].
  pose proof (Hall x (or_introl eq_refl)). lia.
Qed.

Lemma fold_wealth_ones (l : list CellData) acc :
  (∀ c, In c l → wealth c = 1) →
  fold_left (λ sum c, sum + wealth c) l acc = acc + Z.of_nat (length l).
Proof.
  revert acc. induction l as [|x l IH]; intros acc Hall; simpl; [lia|].
  rewrite IH by (intros c Hc; apply Hall; by right).
  rewrite (Hall x (or_introl eq_refl)). lia.
Qed.

(** X22: the counter of live cells shows 0 exactly when the driver's
    liveness test fails, and then total and average wealth are 0 as well:
    the average is not computed by a division by zero. *)
Theorem metrics_extinct (cells : Grid) :
  (Metrics.totalCells cells = 0 ↔ Hook.hasAliveCells cells = false)
  ∧ (Hook.hasAliveCells cells = false →
     Metrics.totalWealth cells = 0 ∧ Metrics.avgWealth cells = 0%Q).
Proof.
  assert (Metrics.totalCells cells = 0 ↔ Hook.hasAliveCells cells = false)
    as Hiff.
  { unfold Metrics.totalCells, Metrics.aliveCells, Hook.hasAliveCells.
    rewrite existsb_concat, <- filter_length_existsb. lia. }
  split; [done|]. intros Hdead%Hiff.
  unfold Metrics.avgWealth, Metrics.totalWealth. rewrite Hdead. simpl.
  split; [|done]. unfold Metrics.totalCells in Hdead.
  by destruct (Metrics.aliveCells cells).
Qed.

Lemma metrics_extinct_witness :
  Metrics.totalWealth (createEmptyGrid 3 2) = 0
  ∧ Metrics.avgWealth (createEmptyGrid 3 2) = 0%Q.
Proof. apply (metrics_extinct (createEmptyGrid 3 2)). reflexivity. Defined.

Lemma metrics_solvent (cells : Grid) :
  solvent cells →
  Metrics.totalCells cells ≤ Metrics.totalWealth cells
  ∧ (0 < Metrics.totalCells cells → (1 <= Metrics.avgWealth cells)%Q).
Proof.
  intros Hsolv.
  assert (Metrics.totalCells cells ≤ Metrics.totalWealth cells) as Hle.
  { unfold Metrics.totalCells, Metrics.totalWealth.
    etrans; [|apply fold_wealth_ge]; [lia|].
    intros c (Hage & row & col & Hat)%aliveCells_at_pos.
    pose proof (Hsolv row col c Hat Hage). lia. }
  split; [done|]. intros Hpos. unfold Metrics.avgWealth.
  destruct (Z.gtb_spec (Metrics.totalCells cells) 0); [|lia].
  apply Qle_shift_div_l.
  - change 0%Q with (inject_Z 0). by rewrite <- Zlt_Qlt.
  - rewrite Qmult_1_l. by rewrite <- Zle_Qle.
Qed.

(** X23: after any successful [step] of the hook the total wealth shown is
    at least the number of live cells shown, so the average wealth is at
    least 1 whenever a cell is alive. *)
Theorem step_metrics (st st' : Hook.State) :
  Hook.step st = Ret st' →
  Metrics.totalCells (Hook.cells (Hook.gridState st'))
    ≤ Metrics.totalWealth (Hook.cells (Hook.gridState st'))
  ∧ (0 < Metrics.totalCells (Hook.cells (Hook.gridState st')) →
     (1 <= Metrics.avgWealth (Hook.cells (Hook.gridState st')))%Q).
Proof.
  unfold Hook.step. cbv zeta.
  destruct (computeNextGeneration _ _ _) as [newCells|] eqn:Hrun; [|done].
  simpl. intros [= <-]. simpl. apply metrics_solvent.
  cut (Forall (Forall (λ c, age c > 0 → wealth c > 0)) newCells).
  { intros HF row col cell Hcell. by apply (at_pos_Forall _ _ _ _ _ HF Hcell). }
  revert Hrun. unfold computeNextGeneration.
  destruct (_ !! 0%nat) as [row0|]; [|done].
  cbv zeta. unfold forRange.
  pose (Q := λ c, age c > 0 → wealth c > 0). fold Q.
  apply (forOf_preserve (λ g : Grid, Forall (Forall Q) g)).
  { rewrite createEmptyGrid_replicate.
    apply Forall_replicate, Forall_replicate. unfold Q. simpl. lia. }
  intros row g1 g2 Hg1.
  apply (forOf_preserve (λ g : Grid, Forall (Forall Q) g)); [done|].
  intros col g3 g4 Hg3.
  destruct (getNeighborCount _ row col) as [n|]; [|done]. simpl.
  destruct (cellAt _ row col) as [cell|]; [|done]. simpl.
  destruct (age cell >? 0);
    match goal with |- context [?a >? 0] => destruct (Z.gtb_spec a 0) end;
    apply setAt_Forall; unfold Q, DEFAULT_STARTING_WEALTH; simpl; (done || lia).
Qed.

Lemma step_metrics_witness :
  ∃ st', Hook.step sampleState = Ret st'
    ∧ Metrics.totalCells (Hook.cells (Hook.gridState st'))
      ≤ Metrics.totalWealth (Hook.cells (Hook.gridState st')).
Proof.
  destruct (Hook.step sampleState) as [st'|] eqn:Hrun;
    [|discriminate (eq_sym Hrun)].
  exists st'. split; [reflexivity|].
  exact (proj1 (step_metrics sampleState st' Hrun)).
Defined.

Lemma filter_fmap_age (f : CellData → CellData) (r : list CellData) :
  (∀ c, age (f c) = age c) →
  List.filter (λ c, age c >? 0) (f <$> r)
  = f <$> List.filter (λ c, age c >? 0) r.
Proof.
  intros Hage. induction r as [|c r IH]; [done|].
  rewrite fmap_cons.
  change (List.filter (λ c, age c >? 0) (f c :: (f <$> r)))
    with (if age (f c) >? 0
          then f c :: List.filter (λ c, age c >? 0) (f <$> r)
          else List.filter (λ c, age c >? 0) (f <$> r)).
  change (List.filter (λ c, age c >? 0) (c :: r))
    with (if age c >? 0
          then c :: List.filter (λ c, age c >? 0) r
          else List.filter (λ c, age c >? 0) r).
  rewrite Hage, IH. by destruct (age c >? 0).
Qed.

Lemma aliveCells_fmap (f : CellData → CellData) (grid : Grid) :
  (∀ c, age (f c) = age c) →
  Metrics.aliveCells ((λ r : list CellData, f <$> r) <$> grid)
  = f <$> Metrics.aliveCells grid.
Proof.
  intros Hage. unfold Metrics.aliveCells.
  induction grid as [|r grid IH]; [done|].
  rewrite fmap_cons.
  change (concat ((f <$> r) :: ((λ r : list CellData, f <$> r) <$> grid)))
    with ((f <$> r) ++ concat ((λ r : list CellData, f <$> r) <$> grid)).
  change (concat (r :: grid)) with (r ++ concat grid).
  by rewrite !List.filter_app, IH, filter_fmap_age, fmap_app.
Qed.

(** X24: after [resetWealth] the figures show the same number of live cells
    as before, a total wealth equal to that number, and hence an average
    wealth of 1 whenever a cell is alive. *)
Theorem resetWealth_metrics (st : Hook.State) :
  Metrics.totalCells (Hook.cells (Hook.gridState (Hook.resetWealth st)))
  = Metrics.totalCells (Hook.cells (Hook.gridState st))
  ∧ Metrics.totalWealth (Hook.cells (Hook.gridState (Hook.resetWealth st)))
    = Metrics.totalCells (Hook.cells (Hook.gridState st))
  ∧ (0 < Metrics.totalCells (Hook.cells (Hook.gridState st)) →
     (Metrics.avgWealth (Hook.cells (Hook.gridState (Hook.resetWealth st)))
      == 1)%Q).
Proof.
  set (f := λ cell, if age cell >? 0
                    then {| age := age cell; wealth := 1 |} else cell).
  assert (∀ c, age (f c) = age c) as Hage
    by (intros c; unfold f; by destruct (age c >? 0)).
  assert (Hook.cells (Hook.gridState (Hook.resetWealth st))
          = (λ r : list CellData, f <$> r) <$> Hook.cells (Hook.gridState st))
    as -> by done.
  assert (Metrics.totalCells
            ((λ r : list CellData, f <$> r) <$> Hook.cells (Hook.gridState st))
          = Metrics.totalCells (Hook.cells (Hook.gridState st))) as Hcount.
  { unfold Metrics.totalCells.
    by rewrite aliveCells_fmap, length_fmap by done. }
  assert (Metrics.totalWealth
            ((λ r : list CellData, f <$> r) <$> Hook.cells (Hook.gridState st))
          = Metrics.totalCells (Hook.cells (Hook.gridState st))) as Hsum.
  { unfold Metrics.totalWealth, Metrics.totalCells.
    rewrite aliveCells_fmap by done. rewrite fold_wealth_ones.
    - by rewrite length_fmap.
    - intros c (x & -> & Hx%list_elem_of_In)%list_elem_of_In%list_elem_of_fmap.
      apply aliveCells_at_pos in Hx as [Hx _]. unfold f.
      by destruct (Z.gtb_spec (age x) 0); [|lia]. }
  split; [done|]. split; [done|]. intros Hpos.
  unfold Metrics.avgWealth. rewrite Hcount, Hsum.
  destruct (Z.gtb_spec (Metrics.totalCells (Hook.cells (Hook.gridState st))) 0);
    [|lia].
  unfold Qdiv. apply Qmult_inv_r. unfold Qeq. simpl. lia.
Qed.

Lemma resetWealth_metrics_witness :
  Metrics.totalWealth (Hook.cells (Hook.gridState (Hook.resetWealth sampleState)))
  = 2
  ∧ (Metrics.avgWealth (Hook.cells (Hook.gridState (Hook.resetWealth sampleState)))
     == 1)%Q.
Proof.
  destruct (resetWealth_metrics sampleState) as (_ & Hsum & Havg).
  split; [exact Hsum|]. apply Havg. reflexivity.
Defined.



(** ** Counting after randomising *)

Lemma concat_rows {A} (g : nat → A) (width height : nat) :
  concat ((λ r, (λ c, g (r * width + c)%nat) <$> seq 0 width) <$> seq 0 height)
  = g <$> seq 0 (height * width).
Proof.
  induction height as [|h IH]; [done|].
  rewrite seq_S, fmap_app, concat_app, IH. simpl plus.
  rewrite fmap_cons, fmap_nil. cbn [concat]. rewrite app_nil_r.
  replace (S h * width)%nat with (h * width + width)%nat by lia.
  rewrite seq_app, fmap_app. f_equal.
  replace (seq (0 + h * width) width) with (seq (h * width + 0) width)
    by (f_equal; lia).
  rewrite <- (fmap_add_seq (h * width)), <- list_fmap_compose.
  by apply list_fmap_ext.
Qed.

(** X26: the number of live cells shown for a freshly randomised grid is the
    number of draws, among the first [height * width] of the source, that
    fell strictly below [density]. *)
Theorem randomizeGrid_count {S : Type} (randomFn : S → Q * S)
    (width height : nat) (density : Q) (startingWealth : Z) (s : S) :
  Metrics.totalCells
    (randomizeGrid randomFn width height density startingWealth s).1
  = Z.of_nat (length (List.filter
       (λ k, if Qlt_le_dec (drawAt randomFn k s) density then true else false)
       (seq 0 (height * width)))).
Proof.
  rewrite randomizeGrid_rows. simpl. unfold Metrics.totalCells. f_equal.
  unfold Metrics.aliveCells.
  rewrite (concat_rows
             (λ k, cellOfDraw density startingWealth (drawAt randomFn k s))).
  generalize (seq 0 (height * width)). intros ks.
  induction ks as [|k ks IH]; [done|]. rewrite fmap_cons.
  change (List.filter ?f (?x :: ?l))
    with (if f x then x :: List.filter f l else List.filter f l).
  unfold cellOfDraw at 1.
  destruct (Qlt_le_dec (drawAt randomFn k s) density); simpl; by rewrite IH.
Qed.

Lemma randomizeGrid_count_witness :
  Metrics.totalCells (randomizeGrid mockRandom 4 4 (1 # 2) 10 0%nat).1 = 8.
Proof. rewrite randomizeGrid_count. reflexivity. Defined.

(** ** Grids that are not rectangular *)

Section Failures.
Context {St : Type}.

Lemma forOf_outcome {A} (P : St → Prop) (E : error → Prop)
    (xs : list A) (body : A → St → outcome St) st :
  P st →
  (∀ x st, x ∈ xs → P st →
     match body x st with Ret st' => P st' | Err e => E e end) →
  match forOf xs body st with Ret st' => P st' | Err e => E e end.
Proof.
  revert st. induction xs as [|x xs IH]; intros st H0 Hstep; simpl; [done|].
  pose proof (Hstep x st ltac:(set_solver) H0) as Hx.
  destruct (body x st) as [st1|e]; simpl; [|done].
  apply IH; [done|]. intros y st2 Hy. apply Hstep. set_solver.
Qed.

Lemma forOf_Ret_each {A} (xs : list A) (body : A → St → outcome St) st st' x :
  forOf xs body st = Ret st' → x ∈ xs → ∃ sa sb, body x sa = Ret sb.
Proof.
  revert st. induction xs as [|y xs IH]; intros st Hrun Hx; [set_solver|].
  simpl in Hrun. destruct (body y st) as [st1|e] eqn:Hy; [|done].
  apply elem_of_cons in Hx as [->|Hx]; [eauto|]. by apply (IH st1).
Qed.

End Failures.

Lemma getNeighborCount_error grid row col e :
  getNeighborCount grid row col = Err e → e = TypeError.
Proof.
  unfold getNeighborCount. destruct (grid !! 0%nat) as [row0|]; [|congruence].
  cbv zeta. intros Hrun.
  match type of Hrun with
  | forOf ?xs ?b ?k = _ =>
      pose proof (forOf_outcome (λ _, True) (λ e, e = TypeError) xs b k I) as Hall
  end.
  rewrite Hrun in Hall. apply Hall. intros [dr dc] count _ _.
  destruct (_ && _); [|done].
  unfold cellAt. destruct (idx grid _) as [r|]; [|done].
  destruct (idx r _) as [cell|]; [|done]. simpl. by destruct (age cell >? 0).
Qed.

(** X27: a grid with a row shorter than its first row makes
    [computeNextGeneration] throw a [TypeError]: the pass reads a cell that
    is not there. *)
Theorem computeNextGeneration_short_row grid wealthRules startingWealth
    (i : nat) row0 r :
  grid !! 0%nat = Some row0 → grid !! i = Some r →
  (length r < length row0)%nat →
  computeNextGeneration grid wealthRules startingWealth = Err TypeError.
Proof.
  intros H0 Hi Hshort.
  destruct (computeNextGeneration grid wealthRules startingWealth)
    as [grid'|e] eqn:Hrun.
  - exfalso. revert Hrun. unfold computeNextGeneration. rewrite H0.
    cbv zeta. unfold forRange. intros Hrun.
    destruct (forOf_Ret_each _ _ _ _ (Z.of_nat i) Hrun) as (ga & gb & Hrow).
    { apply elem_of_seqZ. apply lookup_lt_Some in Hi. lia. }
    destruct (forOf_Ret_each _ _ _ _ (Z.of_nat (length r)) Hrow)
      as (gc & gd & Hcol).
    { apply elem_of_seqZ. lia. }
    simpl in Hcol.
    destruct (getNeighborCount grid _ _) as [n|]; [|done]. simpl in Hcol.
    unfold cellAt in Hcol. rewrite idx_of_nat, Hi, idx_of_nat in Hcol.
    by rewrite lookup_ge_None_2 in Hcol by lia.
  - f_equal. revert Hrun. unfold computeNextGeneration. rewrite H0.
    cbv zeta. unfold forRange. intros Hrun.
    match type of Hrun with
    | forOf ?xs ?b ?g0 = _ =>
        pose proof (forOf_outcome
                      (λ g : Grid, dims g (length grid) (length row0))
                      (λ e, e = TypeError) xs b g0
                      (createEmptyGrid_dims _ _)) as Hall
    end.
    rewrite Hrun in Hall. apply Hall. clear Hrun Hall.
    intros row g1 [Hrow1 Hrow2]%elem_of_seqZ Hg1.
    apply forOf_outcome; [done|].
    intros col g2 [Hcol1 Hcol2]%elem_of_seqZ Hg2.
    destruct (getNeighborCount grid row col) as [n|e'] eqn:Hn; simpl;
      [|by apply getNeighborCount_error in Hn].
    unfold cellAt. destruct (idx grid row) as [rw|]; [|done].
    destruct (idx rw col) as [cell|]; [|done]. simpl.
    assert (∀ v, match setAt g2 row col v with
                 | Ret g3 => dims g3 (length grid) (length row0)
                 | Err e => e = TypeError
                 end) as Hset.
    { intros v.
      destruct (setAt_ok g2 _ _ row col v Hg2) as (g3 & -> & Hd3 & _);
        (done || lia). }
    destruct (age cell >? 0); destruct (_ >? 0); apply Hset.
Qed.

Lemma computeNextGeneration_short_row_witness :
  computeNextGeneration
    [ [createEmptyCell; createEmptyCell]; [createAliveCell 10] ]
    defaultWealthRules 10 = Err TypeError.
Proof.
  apply (computeNextGeneration_short_row _ _ _ 1%nat
           [createEmptyCell; createEmptyCell] [createAliveCell 10]);
    [reflexivity|reflexivity|simpl; lia].
Defined.
